(** * monochromeoled: the SSD1306 display driver, embedded and verified

    A shallow embedding of [src/monochromeoled/monochromeoled.go].  Go's
    [int] is modelled as a 64-bit two's complement integer carried in [Z],
    a [byte] as a [Z] in [0, 256), a [[]byte] as a [list Z] whose indexing
    panics out of range, and the I2C device as the log of the writes it has
    received together with an oracle telling which writes fail. *)

From Stdlib Require Import ZArith Lia String Bool.
From stdpp Require Import base list.

Local Open Scope Z_scope.

(** ** Machine integers *)

Module GoInt.

Definition min_int : Z := - 2 ^ 63.
Definition max_int : Z := 2 ^ 63 - 1.

Definition is_int (z : Z) : Prop := min_int <= z <= max_int.

(** Two's complement wrap-around of an [int] result. *)
Definition wrap (z : Z) : Z := (z + 2 ^ 63) mod 2 ^ 64 - 2 ^ 63.

Definition add (a b : Z) : Z := wrap (a + b).
Definition sub (a b : Z) : Z := wrap (a - b).
Definition mul (a b : Z) : Z := wrap (a * b).
(** Go's [/] truncates toward zero. *)
Definition quot (a b : Z) : Z := wrap (Z.quot a b).

Definition is_byte (b : Z) : Prop := 0 <= b < 256.
Definition u8 (z : Z) : Z := z mod 256.
Definition u32 (z : Z) : Z := z mod 2 ^ 32.

End GoInt.
Import GoInt.

(** ** Calls that return or panic *)

Inductive outcome (A : Type) : Type :=
| Return (a : A)
| Panic (msg : string).
Arguments Return {A} a.
Arguments Panic {A} msg.

#[global] Instance outcome_ret : MRet outcome := fun A a => Return a.
#[global] Instance outcome_bind : MBind outcome := fun A B k c =>
  match c with
  | Return a => k a
  | Panic msg => Panic msg
  end.

(** ** Errors *)

Inductive error : Type :=
| ErrOutOfBounds (x y w h : Z)   (* "(x=%v, y=%v) is out of bounds on this %vx%v display" *)
| ErrValue (v : Z)               (* "value needs to be either 0 or 1; given %v" *)
| ErrTransport (msg : string).   (* whatever the bus reports *)

(** ** Byte slices *)

(** The largest allocation the runtime accepts ([maxAlloc], 2^48 bytes on
    64-bit Linux). *)
Definition max_alloc : Z := 2 ^ 48.

(** [make([]byte, n)]: the runtime's [makeslice] panics on a negative
    length and on one above [maxAlloc].  Within the limit the memory is
    taken to be there: an allocation the operating system cannot satisfy
    ends the process with a fatal error, which is no Go value and has no
    place here; the properties proved of the constructors stay far from
    such sizes. *)
Definition make (n : Z) : outcome (list Z) :=
  if (n <? 0) || (n >? max_alloc) then Panic "makeslice: len out of range"
  else Return (replicate (Z.to_nat n) 0).

Definition in_range (s : list Z) (i : Z) : bool :=
  (0 <=? i) && (i <? Z.of_nat (length s)).

Definition byteAt (s : list Z) (i : nat) : Z := default 0 (s !! i).

Definition index (s : list Z) (i : Z) : outcome Z :=
  if in_range s i then Return (byteAt s (Z.to_nat i))
  else Panic "index out of range".

Definition assign (s : list Z) (i : Z) (v : Z) : outcome (list Z) :=
  if in_range s i then Return (<[Z.to_nat i := v]> s)
  else Panic "index out of range".

(** ** The bus

    The driver only ever writes.  A device records every byte sequence
    handed to [Write], in order; [fails n] says whether write number [n]
    (counted from 0 over the life of the connection) is reported as
    failed, and with which message. *)

Record Device : Type := {
  written : list (list Z);
  fails : nat -> option string
}.

Definition Write (d : Device) (data : list Z) : Device * option error :=
  ({| written := written d ++ [data]; fails := fails d |},
   ErrTransport <$> fails d (length (written d))).

(** An opener either yields a connection for the address or fails. *)
Definition Opener : Type := Z -> Device + string.

Definition i2c_Open (o : Opener) (a : Z) : Device + error :=
  match o a with
  | inl d => inl d
  | inr msg => inr (ErrTransport msg)
  end.

(** ** Constants *)

Definition ssd1306_LCDWIDTH : Z := 128.
Definition ssd1306_LCDHEIGHT : Z := 64.
Definition addr : Z := 0x3C.
Definition ssd1306_DISPLAY_ON : Z := 0xAF.
Definition ssd1306_DISPLAY_OFF : Z := 0xAE.

(** ** The display *)

Record OLED : Type := {
  dev : Device;
  w : Z;
  h : Z;
  buf : list Z
}.

Definition with_buf (o : OLED) (b : list Z) : OLED :=
  {| dev := dev o; w := w o; h := h o; buf := b |}.

Definition with_dev (o : OLED) (d : Device) : OLED :=
  {| dev := d; w := w o; h := h o; buf := buf o |}.

Definition SetPixel (o : OLED) (x y v : Z) : outcome (OLED * option error) :=
  if (x >=? w o) || (y >=? h o) then
    Return (o, Some (ErrOutOfBounds x y (w o) (h o)))
  else if v >? 1 then
    Return (o, Some (ErrValue v))
  else
    let i := add (add 1 x) (mul (quot y 8) (w o)) in
    if v =? 0 then
      b ← index (buf o) i;
      s ← assign (buf o) i (Z.land b (u8 (Z.lnot (u8 (Z.shiftl 1 (Z.land y 7))))));
      Return (with_buf o s, None)
    else
      b ← index (buf o) i;
      s ← assign (buf o) i (Z.lor b (u8 (Z.shiftl 1 (Z.land y 7))));
      Return (with_buf o s, None).

(** [for i := start; i < stop; i++ { body }] with [n] the number of
    iterations left, that is [stop - i] when positive.  The body may make
    the enclosing function return an error, which ends the loop. *)
Fixpoint for_range {St : Type} (n : nat) (i : Z)
    (body : Z -> St -> outcome (St * option error)) (s : St)
    : outcome (St * option error) :=
  match n with
  | O => Return (s, None)
  | S n' =>
      r ← body i s;
      match r.2 with
      | Some e => Return r
      | None => for_range n' (add i 1) body r.1
      end
  end.

(** ** Source images, as far as the driver looks at them *)

Record Point : Type := { X : Z; Y : Z }.
Record Rectangle : Type := { Min : Point; Max : Point }.

Definition Dx (r : Rectangle) : Z := sub (X (Max r)) (X (Min r)).
Definition Dy (r : Rectangle) : Z := sub (Y (Max r)) (Y (Min r)).

(** A colour answers [RGBA()] with four [uint32] channels. *)
Record Color : Type := { RGBA : Z * Z * Z * Z }.

Record Image : Type := {
  Bounds : Rectangle;
  At : Z -> Z -> Color
}.

(** ** Command sequences *)

Definition initSeq : list Z := [
  0xae;
  Z.lor 0x00 0x00;
  Z.lor 0x10 0x00;
  0xd5; 0x40;
  0xa8; ssd1306_LCDHEIGHT - 1;
  0xd3; 0x00;
  Z.lor 0x40 0;
  0x8d; 0x14;
  0x20; 0x0;

  Z.lor 0xA0 0x1;
  0xC8;
  0xda; 0x12;
  0x81; 0xcf;
  0x9d; 0xf1;
  0xdb; 0x40;
  0xa4; 0xa6;

  0x2e;
  0xaf
].

(** The literal that [Draw] sends ahead of the buffer. *)
Definition drawCmd : list Z := [
  0xa4;
  Z.lor 0x40 0;
  0x21; 0; ssd1306_LCDWIDTH;
  0x22; 0; 7
].

(** ** Opening *)

(** The first component of the result is the connection as the call leaves
    it ([None] when none was opened), the second Go's two return values. *)
Definition Open (o : Opener)
    : outcome (option Device * (option OLED * option error)) :=
  let w := ssd1306_LCDWIDTH in
  let h := ssd1306_LCDHEIGHT in
  match i2c_Open o addr with
  | inr err => Return (None, (None, Some err))
  | inl dev =>
      let (dev, e) := Write dev initSeq in
      match e with
      | Some err => Return (Some dev, (None, Some err))
      | None =>
          buf ← make (add (mul w (quot h 8)) 1);
          buf ← assign buf 0 0x40;
          Return (Some dev, (Some {| dev := dev; w := w; h := h; buf := buf |}, None))
      end
  end.

Definition OpenWithI2c (i2cDevice : Device) (height : Z)
    : outcome (option OLED * option error) :=
  let w := ssd1306_LCDWIDTH in
  let h := height in
  buf ← make (add (mul w (quot h 8)) 1);
  buf ← assign buf 0 0x40;
  Return (Some {| dev := i2cDevice; w := w; h := h; buf := buf |}, None).

(** ** Drawing *)

Definition On (o : OLED) : OLED * option error :=
  let (d, e) := Write (dev o) [ssd1306_DISPLAY_ON] in (with_dev o d, e).

Definition Off (o : OLED) : OLED * option error :=
  let (d, e) := Write (dev o) [ssd1306_DISPLAY_OFF] in (with_dev o d, e).

Definition Draw (o : OLED) : OLED * option error :=
  let (d, e) := Write (dev o) drawCmd in
  match e with
  | Some err => (with_dev o d, Some err)
  | None => let (d', e') := Write d (buf o) in (with_dev o d', e')
  end.

Definition Clear (o : OLED) : outcome (OLED * option error) :=
  r ← for_range (Z.to_nat (Z.of_nat (length (buf o)) - 1)) 1
        (fun i o => s ← assign (buf o) i 0; Return (with_buf o s, None)) o;
  Return (Draw r.1).

(** The on/off value [SetImage] derives from a source colour. *)
Definition threshold (c : Color) : Z :=
  let '(r, g, b, _) := RGBA c in
  if u32 (u32 (r + g) + b) >? 0 then 0x1 else 0.

(** Body of the inner loop of [SetImage], over the rows [j] of column [i];
    the state is the display and the counter [imgY]. *)
Definition SetImage_row (img : Image) (i imgI : Z) (j : Z) (st : OLED * Z)
    : outcome ((OLED * Z) * option error) :=
  let '(o, imgY) := st in
  let v := threshold (At img imgI imgY) in
  r ← SetPixel o i j v;
  match r.2 with
  | Some err => Return ((r.1, imgY), Some err)
  | None => Return ((r.1, add imgY 1), None)
  end.

(** Body of the outer loop, over the columns [i]; [rows] is the number of
    iterations of the inner loop, which starts at [y]. *)
Definition SetImage_column (img : Image) (y : Z) (rows : nat) (i : Z)
    (st : OLED * Z * Z) : outcome ((OLED * Z * Z) * option error) :=
  let '(o, imgI, imgY) := st in
  let imgY := 0 in
  r ← for_range rows y (SetImage_row img i imgI) (o, imgY);
  match r.2 with
  | Some err => Return ((r.1.1, imgI, r.1.2), Some err)
  | None => Return ((r.1.1, add imgI 1, r.1.2), None)
  end.

Definition SetImage (o : OLED) (x y : Z) (img : Image)
    : outcome (OLED * option error) :=
  let imgW := Dx (Bounds img) in
  let imgH := Dy (Bounds img) in
  let endX := add x imgW in
  let endY := add y imgH in
  let endX := if endX >=? w o then w o else endX in
  let endY := if endY >=? h o then h o else endY in
  r ← for_range (Z.to_nat (endX - x)) x
        (SetImage_column img y (Z.to_nat (endY - y))) (o, 0, 0);
  Return (r.1.1.1, r.2).

(** ** Scrolling *)

Definition EnableScroll (o : OLED) (startY endY : Z)
    : outcome (OLED * option error) :=
  Panic "not implemented".

Definition DisableScroll (o : OLED) : outcome (OLED * option error) :=
  Panic "not implemented".

Definition Width (o : OLED) : Z := w o.
Definition Height (o : OLED) : Z := h o.

(** ** The addressing scheme and the buffer invariant *)

(** Byte and bit that hold pixel (x, y), by the page layout of the
    controller: one byte per page column, one bit per row of the page. *)
Definition byte_of_pixel (o : OLED) (x y : Z) : Z := 1 + x + (y / 8) * w o.
Definition bit_of_pixel (y : Z) : Z := y mod 8.

Definition bit_at (s : list Z) (i : nat) (n : Z) : bool :=
  Z.testbit (byteAt s i) n.

(** Reading pixel (x, y) back from the buffer. *)
Definition pixel (o : OLED) (x y : Z) : bool :=
  bit_at (buf o) (Z.to_nat (byte_of_pixel o x y)) (bit_of_pixel y).

(** The byte an in-bounds [SetPixel] stores for value [v], in terms of the
    addressing scheme. *)
Definition stored (o : OLED) (x y v : Z) : Z :=
  let b := byteAt (buf o) (Z.to_nat (byte_of_pixel o x y)) in
  if v =? 0 then Z.land b (u8 (Z.lnot (u8 (Z.shiftl 1 (bit_of_pixel y)))))
  else Z.lor b (u8 (Z.shiftl 1 (bit_of_pixel y))).

(** A source pixel counts as lit when its red, green and blue channels sum
    to more than zero. *)
Definition lit (c : Color) : bool :=
  let '(r, g, b, _) := RGBA c in r + g + b >? 0.

(** The contract of [RGBA()]: every channel lies in [0, 0xffff]. *)
Definition valid_color (c : Color) : Prop :=
  let '(r, g, b, a) := RGBA c in
  0 <= r <= 0xffff /\ 0 <= g <= 0xffff /\ 0 <= b <= 0xffff /\ 0 <= a <= 0xffff.

(** What [Open] establishes and every operation keeps: the height is a
    whole number of pages, the buffer has one marker byte and one byte per
    page column, and its elements are bytes. *)
Record wf (o : OLED) : Prop := {
  wf_w : is_int (w o);
  wf_h : is_int (h o);
  wf_pages : h o mod 8 = 0;
  wf_len : Z.of_nat (length (buf o)) = 1 + w o * (h o / 8);
  wf_len_int : Z.of_nat (length (buf o)) <= max_int;
  wf_bytes : Forall is_byte (buf o)
}.

(** ** Fixtures used to exercise the statements *)

Definition quiet : Device := {| written := []; fails := fun _ => None |}.

(** A two-column, one-page display. *)
Definition tiny : OLED := {| dev := quiet; w := 2; h := 8; buf := [0x40; 0; 0] |}.

(** A connection whose write number [n] fails. *)
Definition flaky (n : nat) : Device :=
  {| written := []; fails := fun k => if Nat.eqb k n then Some "EIO"%string else None |}.

(** The 128x64 display as [Open] returns it over a quiet bus. *)
Definition after_init : Device := {| written := [initSeq]; fails := fun _ => None |}.
Definition opened : OLED :=
  {| dev := after_init; w := 128; h := 64; buf := 0x40 :: replicate 1024 0 |}.

Definition origin_rect (n m : Z) : Rectangle :=
  {| Min := {| X := 0; Y := 0 |}; Max := {| X := n; Y := m |} |}.

(** A one-pixel picture whose bounds start at (5, 5): white there, black
    everywhere else. *)
Definition offset_dot : Image :=
  {| Bounds := {| Min := {| X := 5; Y := 5 |}; Max := {| X := 6; Y := 6 |} |};
     At := fun u v =>
       if (u =? 5) && (v =? 5) then {| RGBA := (0xffff, 0xffff, 0xffff, 0xffff) |}
       else {| RGBA := (0, 0, 0, 0) |} |}.

(** An all-white [n] by [m] picture. *)
Definition white (n m : Z) : Image :=
  {| Bounds := origin_rect n m;
     At := fun _ _ => {| RGBA := (0xffff, 0xffff, 0xffff, 0xffff) |} |}.

(** ** Decoding an address

    The column and row of the pixel kept in bit [n] of the byte at index
    [k], the inverse of the index computation in [SetPixel]. *)
Definition pixel_of_bit (o : OLED) (k n : Z) : Z * Z :=
  ((k - 1) mod w o, 8 * ((k - 1) / w o) + n).

(** A picture with no columns. *)
Definition no_picture : Image :=
  {| Bounds := origin_rect 0 7;
     At := fun _ _ => {| RGBA := (0xffff, 0xffff, 0xffff, 0xffff) |} |}.

(** ** Client code: a sequence of calls on one display

    Each call is made on the display as the previous one left it; the
    error a call returns is dropped, a panic ends the run. *)
Inductive call : Type :=
| CallSetPixel (x y v : Z)
| CallSetImage (x y : Z) (img : Image)
| CallClear
| CallDraw
| CallOn
| CallOff.

Definition perform (o : OLED) (c : call) : outcome (OLED * option error) :=
  match c with
  | CallSetPixel x y v => SetPixel o x y v
  | CallSetImage x y img => SetImage o x y img
  | CallClear => Clear o
  | CallDraw => Return (Draw o)
  | CallOn => Return (On o)
  | CallOff => Return (Off o)
  end.

Fixpoint perform_all (o : OLED) (cs : list call) : outcome OLED :=
  match cs with
  | [] => Return o
  | c :: cs' => r ← perform o c; perform_all r.1 cs'
  end.

(** Calls whose coordinates are not negative (and whose arguments respect
    their Go types and the colour contract). *)
Definition nonnegative (c : call) : Prop :=
  match c with
  | CallSetPixel x y v => 0 <= x /\ 0 <= y /\ is_byte v
  | CallSetImage x y img =>
      0 <= x /\ 0 <= y /\
      x + Dx (Bounds img) <= max_int /\ y + Dy (Bounds img) <= max_int /\
      forall u v, valid_color (At img u v)
  | _ => True
  end.

(** * Facts *)

(** ** Machine arithmetic *)

Lemma wrap_small z : is_int z -> wrap z = z.
Proof.
  unfold is_int, wrap, min_int, max_int. intros Hz.
  rewrite Z.mod_small; lia.
Qed.

Lemma wrap_is_int z : is_int (wrap z).
Proof.
  unfold is_int, wrap, min_int, max_int.
  pose proof (Z.mod_pos_bound (z + 2 ^ 63) (2 ^ 64) ltac:(lia)). lia.
Qed.

Ltac int_range := unfold is_int, min_int, max_int, max_alloc in *; nia.

Lemma quot_8_nonneg y : 0 <= y -> is_int y -> quot y 8 = y / 8.
Proof.
  intros Hy Hi. unfold quot. rewrite Z.quot_div_nonneg by lia.
  apply wrap_small.
  pose proof (Z.div_pos y 8 Hy ltac:(lia)).
  pose proof (Z.div_le_upper_bound y 8 y ltac:(lia) ltac:(lia)).
  int_range.
Qed.

Lemma land_7 y : Z.land y 7 = y mod 8.
Proof. change 7 with (Z.ones 3). rewrite Z.land_ones by lia. reflexivity. Qed.

Lemma u8_shiftl_1 k : 0 <= k < 8 -> u8 (Z.shiftl 1 k) = 2 ^ k.
Proof.
  intros Hk. unfold u8. rewrite Z.shiftl_1_l.
  apply Z.mod_small. split; [lia|].
  change 256 with (2 ^ 8). apply Z.pow_lt_mono_r; lia.
Qed.

Lemma byte_high_bits b n : is_byte b -> 8 <= n -> Z.testbit b n = false.
Proof.
  intros Hb Hn. rewrite <- (Z.mod_small b (2 ^ 8)) by (unfold is_byte in Hb; lia).
  apply Z.mod_pow2_bits_high. lia.
Qed.

Lemma testbit_u8 z n : Z.testbit (u8 z) n = (n <? 8) && Z.testbit z n.
Proof.
  unfold u8. change 256 with (2 ^ 8).
  destruct (Z.ltb_spec n 8) as [Hlt|Hge]; simpl.
  - destruct (Z.ltb_spec n 0) as [Hneg|Hpos].
    + rewrite !Z.testbit_neg_r by lia. reflexivity.
    + apply Z.mod_pow2_bits_low. lia.
  - apply Z.mod_pow2_bits_high. lia.
Qed.

(** [b |= 1 << k] turns bit [k] on and keeps the rest. *)
Lemma bit_set b k n :
  0 <= k < 8 ->
  Z.testbit (Z.lor b (u8 (Z.shiftl 1 k))) n = Z.testbit b n || (n =? k).
Proof.
  intros Hk. rewrite u8_shiftl_1 by assumption.
  rewrite Z.lor_spec. f_equal.
  rewrite Z.pow2_bits_eqb by lia. apply Z.eqb_sym.
Qed.

(** [b &= ^(1 << k)] turns bit [k] off and keeps the rest. *)
Lemma bit_clear b k n :
  is_byte b -> 0 <= k < 8 ->
  Z.testbit (Z.land b (u8 (Z.lnot (u8 (Z.shiftl 1 k))))) n
  = Z.testbit b n && negb (n =? k).
Proof.
  intros Hb Hk. rewrite u8_shiftl_1 by assumption.
  rewrite Z.land_spec, testbit_u8.
  destruct (Z.ltb_spec n 0) as [Hneg|Hpos].
  { rewrite !Z.testbit_neg_r by lia. reflexivity. }
  destruct (Z.ltb_spec n 8) as [Hlt|Hge]; simpl.
  - rewrite Z.lnot_spec by lia. rewrite Z.pow2_bits_eqb by lia.
    rewrite (Z.eqb_sym k n). reflexivity.
  - rewrite byte_high_bits by assumption. reflexivity.
Qed.

Lemma set_is_byte b k : is_byte b -> 0 <= k < 8 -> is_byte (Z.lor b (u8 (Z.shiftl 1 k))).
Proof.
  intros Hb Hk. rewrite u8_shiftl_1 by assumption.
  unfold is_byte in *. split.
  - apply Z.lor_nonneg. split; [lia | apply Z.pow_nonneg; lia].
  - change 256 with (2 ^ 8).
    destruct (Z.eq_dec (Z.lor b (2 ^ k)) 0) as [->|Hnz]; [lia|].
    apply Z.log2_lt_pow2.
    + assert (0 <= Z.lor b (2 ^ k)) by (apply Z.lor_nonneg; split; [lia | apply Z.pow_nonneg; lia]). lia.
    + rewrite Z.log2_lor by (try lia; apply Z.pow_nonneg; lia).
      rewrite Z.log2_pow2 by lia.
      assert (Z.log2 b < 8).
      { destruct (Z.eq_dec b 0) as [->|]; [simpl; lia|].
        apply Z.log2_lt_pow2; lia. }
      lia.
Qed.

Lemma clear_is_byte b m : is_byte b -> is_byte (Z.land b (u8 m)).
Proof.
  intros Hb. unfold is_byte, u8 in *.
  pose proof (Z.mod_pos_bound m 256 ltac:(lia)) as Hm.
  assert (0 <= Z.land b (m mod 256)) as Hnn by (apply Z.land_nonneg; lia).
  split; [assumption|].
  destruct (Z.eq_dec (Z.land b (m mod 256)) 0) as [->|Hnz]; [lia|].
  apply (proj2 (Z.log2_lt_pow2 (Z.land b (m mod 256)) 8 ltac:(lia))).
  pose proof (Z.log2_land b (m mod 256) ltac:(lia) ltac:(lia)) as Hl.
  assert (Z.log2 b < 8).
  { destruct (Z.eq_dec b 0) as [->|]; [simpl; lia|].
    apply Z.log2_lt_pow2; lia. }
  lia.
Qed.

(** ** Slices *)

Lemma byteAt_insert (s : list Z) (i j : nat) (v : Z) :
  (i < length s)%nat ->
  byteAt (<[i := v]> s) j = if decide (i = j) then v else byteAt s j.
Proof.
  intros Hi. unfold byteAt. destruct (decide (i = j)) as [->|Hne].
  - rewrite list_lookup_insert_eq by assumption. reflexivity.
  - rewrite list_lookup_insert_ne by assumption. reflexivity.
Qed.

Lemma byteAt_is_byte (s : list Z) (i : nat) :
  Forall is_byte s -> is_byte (byteAt s i).
Proof.
  intros Hs. unfold byteAt. destruct (s !! i) as [b|] eqn:E; simpl.
  - eapply Forall_lookup_1; eassumption.
  - unfold is_byte. lia.
Qed.

Lemma in_range_true (s : list Z) (i : Z) :
  0 <= i < Z.of_nat (length s) -> in_range s i = true.
Proof. intros Hi. unfold in_range. apply andb_true_iff. split; lia. Qed.

(** ** SetPixel inside the display *)

Section InBounds.
Variables (o : OLED) (x y : Z).
Hypothesis Hwf : wf o.
Hypothesis Hx : 0 <= x < w o.
Hypothesis Hy : 0 <= y < h o.

Lemma page_lt : y / 8 < h o / 8.
Proof.
  destruct Hwf. apply Z.div_lt_upper_bound; [lia|].
  rewrite <- (Z_div_exact_full_2 (h o) 8) by lia. lia.
Qed.

Lemma byte_of_pixel_range :
  1 <= byte_of_pixel o x y < Z.of_nat (length (buf o)).
Proof.
  pose proof page_lt as Hp. destruct Hwf as [_ _ _ Hlen _ _].
  pose proof (Z.div_pos y 8 ltac:(lia) ltac:(lia)) as Hq.
  unfold byte_of_pixel. rewrite Hlen. nia.
Qed.

Lemma index_computed :
  add (add 1 x) (mul (quot y 8) (w o)) = byte_of_pixel o x y.
Proof.
  pose proof byte_of_pixel_range as Hr. pose proof page_lt as Hp.
  destruct Hwf as [Hw Hh _ Hlen Hmax _].
  pose proof (Z.div_pos y 8 ltac:(lia) ltac:(lia)) as Hq.
  unfold byte_of_pixel in *.
  rewrite quot_8_nonneg by int_range.
  unfold add, mul.
  rewrite (wrap_small (1 + x)) by int_range.
  rewrite (wrap_small (y / 8 * w o)) by int_range.
  apply wrap_small. int_range.
Qed.

Lemma SetPixel_in_bounds_eq v :
  v = 0 \/ v = 1 ->
  SetPixel o x y v =
  Return (with_buf o (<[Z.to_nat (byte_of_pixel o x y) := stored o x y v]> (buf o)), None).
Proof.
  intros Hv. pose proof byte_of_pixel_range as Hr.
  unfold SetPixel, stored.
  replace (x >=? w o) with false by (symmetry; rewrite Z.geb_leb; lia).
  replace (y >=? h o) with false by (symmetry; rewrite Z.geb_leb; lia).
  replace (v >? 1) with false by (symmetry; rewrite Z.gtb_ltb; lia).
  cbn [orb]. rewrite index_computed, land_7.
  unfold index, assign. rewrite in_range_true by lia.
  destruct (v =? 0); reflexivity.
Qed.

Lemma stored_bit v n :
  v = 0 \/ v = 1 ->
  Z.testbit (stored o x y v) n =
  if n =? bit_of_pixel y then (v =? 1)
  else Z.testbit (byteAt (buf o) (Z.to_nat (byte_of_pixel o x y))) n.
Proof.
  intros Hv. unfold stored.
  assert (0 <= bit_of_pixel y < 8) as Hk by (apply Z.mod_pos_bound; lia).
  destruct Hv as [-> | ->]; cbn [Z.eqb].
  - rewrite bit_clear by (try assumption; apply byteAt_is_byte, Hwf).
    destruct (n =? bit_of_pixel y); cbn; [apply andb_false_r | apply andb_true_r].
  - rewrite bit_set by assumption.
    destruct (n =? bit_of_pixel y); cbn; [apply orb_true_r | apply orb_false_r].
Qed.

Lemma stored_is_byte v : is_byte (stored o x y v).
Proof.
  assert (0 <= bit_of_pixel y < 8) as Hk by (apply Z.mod_pos_bound; lia).
  unfold stored. destruct (v =? 0).
  - apply clear_is_byte, byteAt_is_byte, Hwf.
  - apply set_is_byte; [apply byteAt_is_byte, Hwf | assumption].
Qed.

End InBounds.

Lemma SetPixel_wf o x y v :
  wf o -> 0 <= x < w o -> 0 <= y < h o -> v = 0 \/ v = 1 ->
  wf (with_buf o (<[Z.to_nat (byte_of_pixel o x y) := stored o x y v]> (buf o))).
Proof.
  intros Hwf Hx Hy Hv. pose proof Hwf as [Hw Hh Hp Hlen Hmax Hb].
  split; cbn; rewrite ?length_insert; try assumption.
  apply Forall_insert; [assumption|].
  apply stored_is_byte; assumption.
Qed.

(** C1. For an in-bounds call [SetPixel(x, y, v)] with [v] 0 or 1 on a
    display whose buffer has the page layout, the call succeeds, touches
    nothing but the buffer, keeps the buffer length, leaves every bit other
    than bit [y mod 8] of byte [1 + x + (y / 8) * width] as it was, and that
    bit reads back as [v]. *)
Theorem SetPixel_writes_exactly_one_bit (o : OLED) (x y v : Z) :
  wf o -> 0 <= x < w o -> 0 <= y < h o -> v = 0 \/ v = 1 ->
  exists o',
    SetPixel o x y v = Return (o', None) /\
    dev o' = dev o /\ w o' = w o /\ h o' = h o /\
    length (buf o') = length (buf o) /\
    (Z.to_nat (byte_of_pixel o x y) < length (buf o))%nat /\
    bit_at (buf o') (Z.to_nat (byte_of_pixel o x y)) (bit_of_pixel y) = (v =? 1) /\
    forall (j : nat) (n : Z),
      j <> Z.to_nat (byte_of_pixel o x y) \/ n <> bit_of_pixel y ->
      bit_at (buf o') j n = bit_at (buf o) j n.
Proof.
  intros Hwf Hx Hy Hv.
  pose proof (byte_of_pixel_range o x y Hwf Hx Hy) as Hr.
  assert (Z.to_nat (byte_of_pixel o x y) < length (buf o))%nat as Hi by lia.
  eexists. split; [apply SetPixel_in_bounds_eq; assumption|].
  cbn. rewrite length_insert. repeat split; try assumption.
  - unfold bit_at. rewrite byteAt_insert by assumption.
    rewrite decide_True by reflexivity.
    rewrite stored_bit by assumption. rewrite Z.eqb_refl. reflexivity.
  - intros j n Hjn. unfold bit_at. rewrite byteAt_insert by assumption.
    destruct (decide (Z.to_nat (byte_of_pixel o x y) = j)) as [<-|Hne]; [|reflexivity].
    rewrite stored_bit by assumption.
    destruct (Z.eqb_spec n (bit_of_pixel y)) as [->|Hn]; [|reflexivity].
    destruct Hjn as [Hj|Hn]; congruence.
Qed.

Lemma SetPixel_writes_exactly_one_bit_witness :
  exists o',
    SetPixel tiny 1 3 1 = Return (o', None) /\
    dev o' = dev tiny /\ w o' = w tiny /\ h o' = h tiny /\
    length (buf o') = length (buf tiny) /\
    (Z.to_nat (byte_of_pixel tiny 1 3) < length (buf tiny))%nat /\
    bit_at (buf o') (Z.to_nat (byte_of_pixel tiny 1 3)) (bit_of_pixel 3) = (1 =? 1) /\
    forall (j : nat) (n : Z),
      j <> Z.to_nat (byte_of_pixel tiny 1 3) \/ n <> bit_of_pixel 3 ->
      bit_at (buf o') j n = bit_at (buf tiny) j n.
Proof.
  apply (SetPixel_writes_exactly_one_bit tiny 1 3 1).
  - split; cbn; try (unfold is_int, min_int, max_int; lia); try reflexivity.
    repeat constructor; unfold is_byte; lia.
  - cbn; lia.
  - cbn; lia.
  - right; reflexivity.
Defined.

(** ** SetPixel outside the display *)

Lemma SetPixel_beyond o x y v :
  w o <= x \/ h o <= y ->
  SetPixel o x y v = Return (o, Some (ErrOutOfBounds x y (w o) (h o))).
Proof.
  intros Hb. unfold SetPixel.
  replace ((x >=? w o) || (y >=? h o)) with true; [reflexivity|].
  symmetry. apply orb_true_iff. rewrite !Z.geb_leb, !Z.leb_le. assumption.
Qed.

Lemma SetPixel_bad_value o x y v :
  x < w o -> y < h o -> 1 < v ->
  SetPixel o x y v = Return (o, Some (ErrValue v)).
Proof.
  intros Hx Hy Hv. unfold SetPixel.
  replace (x >=? w o) with false by (symmetry; rewrite Z.geb_leb; lia).
  replace (y >=? h o) with false by (symmetry; rewrite Z.geb_leb; lia).
  replace (v >? 1) with true by (symmetry; rewrite Z.gtb_ltb; lia).
  reflexivity.
Qed.

(** A call that reports an error has changed nothing. *)
Lemma SetPixel_error_keeps_state o x y v o' e :
  SetPixel o x y v = Return (o', Some e) -> o' = o.
Proof.
  unfold SetPixel.
  destruct ((x >=? w o) || (y >=? h o)); [congruence|].
  destruct (v >? 1); [congruence|].
  destruct (v =? 0);
    destruct (index _ _); cbn; try discriminate;
    destruct (assign _ _ _); cbn; discriminate.
Qed.

Lemma Open_quiet :
  Open (fun _ => inl quiet) = Return (Some after_init, (Some opened, None)).
Proof. vm_compute. reflexivity. Qed.

(** C2. Negative coordinates are not rejected.  On the 128x64 display that
    [Open] returns, [SetPixel(-1, 0, 1)] reports success and turns on bit 0
    of the byte at index 0, [SetPixel(0, -1, 1)] reports success and turns
    on bit 7 of the byte at index 1, and [SetPixel(-2, 0, 1)] panics on the
    index -1. *)
Theorem SetPixel_accepts_negative_coordinates :
  SetPixel opened (-1) 0 1
    = Return (with_buf opened (0x41 :: replicate 1024 0), None) /\
  SetPixel opened 0 (-1) 1
    = Return (with_buf opened (0x40 :: 0x80 :: replicate 1023 0), None) /\
  SetPixel opened (-2) 0 1 = Panic "index out of range".
Proof. repeat split; vm_compute; reflexivity. Qed.

(** C5. The byte at index 0 is 0x40 after [Open], and it is rewritten by
    [SetPixel(-1, 0, 1)] and by [SetImage(-1, 0, img)] for a white 1x1
    picture: both report success and leave 0x41 there. *)
Theorem marker_byte_overwritten :
  byteAt (buf opened) 0 = 0x40 /\
  (exists o', SetPixel opened (-1) 0 1 = Return (o', None) /\
              byteAt (buf o') 0 = 0x41) /\
  (exists o', SetImage opened (-1) 0 (white 1 1) = Return (o', None) /\
              byteAt (buf o') 0 = 0x41).
Proof.
  split; [reflexivity|]. split.
  - eexists. split; [vm_compute; reflexivity | reflexivity].
  - eexists. split; [vm_compute; reflexivity | reflexivity].
Qed.

(** ** Allocation of the buffer *)

Lemma make_succ (n : Z) :
  0 <= n -> n + 1 <= max_alloc ->
  make (add n 1) = Return (0 :: replicate (Z.to_nat n) 0).
Proof.
  intros Hn Hmax. unfold add. rewrite wrap_small by int_range.
  unfold make. replace (n + 1 <? 0) with false by (symmetry; apply Z.ltb_ge; lia).
  replace (n + 1 >? max_alloc) with false by (symmetry; rewrite Z.gtb_ltb; apply Z.ltb_ge; lia).
  cbn [orb].
  replace (Z.to_nat (n + 1)) with (S (Z.to_nat n)) by lia.
  reflexivity.
Qed.

Lemma assign_head (b v : Z) (s : list Z) : assign (b :: s) 0 v = Return (v :: s).
Proof. reflexivity. Qed.

Lemma byteAt_fresh (k i : nat) :
  (1 <= i)%nat -> byteAt (0x40 :: replicate k 0) i = 0.
Proof.
  intros Hi. destruct i as [|i]; [lia|].
  unfold byteAt. cbn [lookup list_lookup].
  destruct (replicate k 0 !! i) as [b|] eqn:E; [|reflexivity].
  apply lookup_replicate in E. cbn. tauto.
Qed.

Lemma OpenWithI2c_eq (d : Device) (height : Z) :
  0 <= Z.quot height 8 -> 128 * Z.quot height 8 + 1 <= max_alloc ->
  OpenWithI2c d height
  = Return (Some {| dev := d; w := 128; h := height;
                    buf := 0x40 :: replicate (Z.to_nat (128 * Z.quot height 8)) 0 |},
            None).
Proof.
  intros Hq Hmax. unfold OpenWithI2c, ssd1306_LCDWIDTH.
  unfold quot. rewrite (wrap_small (Z.quot height 8)) by int_range.
  unfold mul. rewrite wrap_small by int_range.
  rewrite make_succ by lia. cbn [mbind outcome_bind].
  rewrite assign_head. reflexivity.
Qed.

(** The connection after one more write. *)
Lemma Open_eq (op : Opener) (d : Device) :
  op addr = inl d -> fails d (length (written d)) = None ->
  Open op = Return (Some {| written := written d ++ [initSeq]; fails := fails d |},
    (Some {| dev := {| written := written d ++ [initSeq]; fails := fails d |};
             w := 128; h := 64; buf := 0x40 :: replicate 1024 0 |}, None)).
Proof.
  intros Hop Hf. unfold Open, i2c_Open, Write. rewrite Hop, Hf. reflexivity.
Qed.

(** ** The bus traffic of Open and Draw *)

(** C3. The initialization sequence has 28 bytes.  When the opener fails,
    [Open] returns its error, no display and no connection.  Otherwise the
    one thing [Open] does on the connection is to write [initSeq]; when that
    write fails [Open] returns the error and no display, and when it
    succeeds [Open] returns the 128x64 display on that connection. *)
Theorem Open_writes_initSeq_once (op : Opener) :
  length initSeq = 28%nat /\
  (forall msg, op addr = inr msg ->
     Open op = Return (None, (None, Some (ErrTransport msg)))) /\
  (forall d, op addr = inl d ->
     exists d',
       written d' = written d ++ [initSeq] /\ fails d' = fails d /\
       (forall msg, fails d (length (written d)) = Some msg ->
          Open op = Return (Some d', (None, Some (ErrTransport msg)))) /\
       (fails d (length (written d)) = None ->
          Open op = Return (Some d',
            (Some {| dev := d'; w := 128; h := 64;
                     buf := 0x40 :: replicate 1024 0 |}, None)))).
Proof.
  split; [reflexivity|]. split.
  - intros msg Hop. unfold Open, i2c_Open. rewrite Hop. reflexivity.
  - intros d Hop.
    exists {| written := written d ++ [initSeq]; fails := fails d |}.
    split; [reflexivity|]. split; [reflexivity|]. split.
    + intros msg Hf. unfold Open, i2c_Open, Write. rewrite Hop, Hf. reflexivity.
    + intros Hf. apply Open_eq; assumption.
Qed.

Lemma Open_writes_initSeq_once_witness :
  Open (fun _ => inr "ENODEV"%string)
    = Return (None, (None, Some (ErrTransport "ENODEV"))) /\
  (exists d',
     written d' = written (flaky 0) ++ [initSeq] /\
     Open (fun _ => inl (flaky 0))
       = Return (Some d', (None, Some (ErrTransport "EIO")))) /\
  (exists d',
     written d' = written quiet ++ [initSeq] /\
     Open (fun _ => inl quiet)
       = Return (Some d',
           (Some {| dev := d'; w := 128; h := 64;
                    buf := 0x40 :: replicate 1024 0 |}, None))).
Proof.
  split; [|split].
  - apply (proj1 (proj2 (Open_writes_initSeq_once (fun _ => inr "ENODEV"%string)))).
    reflexivity.
  - destruct (proj2 (proj2 (Open_writes_initSeq_once (fun _ => inl (flaky 0))))
                (flaky 0) eq_refl) as (d' & Hw & _ & Hfail & _).
    exists d'. split; [exact Hw | apply Hfail; reflexivity].
  - destruct (proj2 (proj2 (Open_writes_initSeq_once (fun _ => inl quiet)))
                quiet eq_refl) as (d' & Hw & _ & _ & Hok).
    exists d'. split; [exact Hw | apply Hok; reflexivity].
Defined.

(** The sequence that [Open] writes first, and alone, is not 26 bytes long. *)
Lemma Open_init_write_is_not_26_bytes :
  exists d o,
    Open (fun _ => inl quiet) = Return (Some d, (Some o, None)) /\
    written d = [initSeq] /\ length initSeq <> 26%nat.
Proof.
  exists after_init, opened. split; [apply Open_quiet|].
  split; [reflexivity | discriminate].
Qed.

Lemma Draw_buf (o : OLED) : buf (Draw o).1 = buf o.
Proof. unfold Draw, Write. destruct (fails (dev o) _); reflexivity. Qed.

Lemma Draw_geometry (o : OLED) : w (Draw o).1 = w o /\ h (Draw o).1 = h o.
Proof. unfold Draw, Write. destruct (fails (dev o) _); split; reflexivity. Qed.

(** The column end address in the framing is the width itself. *)
Lemma drawCmd_column_end :
  drawCmd !! 4%nat = Some ssd1306_LCDWIDTH /\ ssd1306_LCDWIDTH = w opened.
Proof. split; reflexivity. Qed.

(** C4. A flush first writes the eight framing bytes: 0xA4, 0x40, the
    column command 0x21 with start 0 and one end byte, the page command
    0x22 with range 0 to 7.  When that write fails the flush returns its
    error and writes nothing more; otherwise it writes the whole buffer,
    marker byte included, as one second write and returns what that write
    returns. *)
Theorem Draw_writes_framing_then_buffer (o : OLED) :
  (exists c, drawCmd = [0xa4; 0x40; 0x21; 0; c; 0x22; 0; 7]) /\
  match fails (dev o) (length (written (dev o))) with
  | Some msg =>
      written (dev (Draw o).1) = written (dev o) ++ [drawCmd] /\
      (Draw o).2 = Some (ErrTransport msg)
  | None =>
      written (dev (Draw o).1) = written (dev o) ++ [drawCmd; buf o] /\
      (Draw o).2 = ErrTransport <$> fails (dev o) (S (length (written (dev o))))
  end.
Proof.
  split; [eexists; reflexivity|].
  unfold Draw, Write. destruct (fails (dev o) (length (written (dev o)))) eqn:E.
  - cbn. split; reflexivity.
  - cbn. rewrite <- app_assoc. split; [reflexivity|].
    rewrite length_app, Nat.add_1_r. reflexivity.
Qed.

(** On a bus that refuses the framing, a flush performs one write, not two. *)
Lemma Draw_stops_after_failed_framing :
  written (dev (Draw (with_dev opened (flaky 0))).1) = [drawCmd] /\
  (Draw (with_dev opened (flaky 0))).2 = Some (ErrTransport "EIO") /\
  written (dev (Draw (with_dev opened (flaky 0))).1)
    <> written (dev (with_dev opened (flaky 0)))
       ++ [drawCmd; buf (with_dev opened (flaky 0))].
Proof.
  split; [reflexivity|]. split; [reflexivity|].
  cbn. discriminate.
Qed.

(** C9. A flush leaves the buffer as it found it, whatever the bus answers
    to either write; it always returns. *)
Theorem Draw_never_mutates_buffer (o : OLED) :
  buf (Draw o).1 = buf o /\ w (Draw o).1 = w o /\ h (Draw o).1 = h o.
Proof. split; [apply Draw_buf | apply Draw_geometry]. Qed.

(** C10. Both scroll operations panic for every receiver and arguments;
    neither has a normal return. *)
Theorem scroll_always_panics (o : OLED) (startY endY : Z) :
  EnableScroll o startY endY = Panic "not implemented" /\
  DisableScroll o = Panic "not implemented" /\
  (forall r, EnableScroll o startY endY <> Return r) /\
  (forall r, DisableScroll o <> Return r).
Proof. repeat split; intros; discriminate. Qed.

(** ** Geometry at construction *)

(** C7. For a height that is a positive multiple of 8 (with a buffer of at
    most 2^20 bytes, far below what the allocator refuses), [OpenWithI2c]
    returns a display 128 wide and that high whose buffer has
    1 + width * (height / 8) bytes, 0x40 at index 0 and 0 everywhere else;
    and [Open], when the bus cooperates, returns the 128x64 display with a
    buffer of 1025 such bytes. *)
Theorem fresh_buffer_layout :
  (forall (d : Device) (height : Z),
     0 < height -> height mod 8 = 0 -> 1 + 128 * (height / 8) <= 2 ^ 20 ->
     exists o,
       OpenWithI2c d height = Return (Some o, None) /\
       dev o = d /\ w o = 128 /\ h o = height /\
       Z.of_nat (length (buf o)) = 1 + w o * (h o / 8) /\
       byteAt (buf o) 0 = 0x40 /\
       (forall i, (1 <= i)%nat -> byteAt (buf o) i = 0)) /\
  (forall (op : Opener) (d : Device),
     op addr = inl d -> fails d (length (written d)) = None ->
     exists d' o,
       Open op = Return (Some d', (Some o, None)) /\
       w o = 128 /\ h o = 64 /\
       length (buf o) = 1025%nat /\
       Z.of_nat (length (buf o)) = 1 + w o * (h o / 8) /\
       byteAt (buf o) 0 = 0x40 /\
       (forall i, (1 <= i)%nat -> byteAt (buf o) i = 0)).
Proof.
  split.
  - intros d height Hpos Hm Hmax.
    pose proof (Z.quot_div_nonneg height 8 ltac:(lia) ltac:(lia)) as Hqd.
    pose proof (Z.div_pos height 8 ltac:(lia) ltac:(lia)) as Hq.
    eexists. split; [apply OpenWithI2c_eq; unfold max_alloc; lia|].
    cbn [dev w h buf]. repeat split.
    + cbn [length]. rewrite length_replicate, Hqd. lia.
    + intros i Hi. apply byteAt_fresh. assumption.
  - intros op d Hop Hf.
    eexists _, _. split; [apply Open_eq; eassumption|].
    cbn [dev w h buf]. repeat split.
    intros i Hi. apply (byteAt_fresh 1024). assumption.
Qed.

Lemma fresh_buffer_layout_witness :
  (exists o,
     OpenWithI2c quiet 64 = Return (Some o, None) /\
     dev o = quiet /\ w o = 128 /\ h o = 64 /\
     Z.of_nat (length (buf o)) = 1 + w o * (h o / 8) /\
     byteAt (buf o) 0 = 0x40 /\
     (forall i, (1 <= i)%nat -> byteAt (buf o) i = 0)) /\
  (exists d' o,
     Open (fun _ => inl quiet) = Return (Some d', (Some o, None)) /\
     w o = 128 /\ h o = 64 /\
     length (buf o) = 1025%nat /\
     Z.of_nat (length (buf o)) = 1 + w o * (h o / 8) /\
     byteAt (buf o) 0 = 0x40 /\
     (forall i, (1 <= i)%nat -> byteAt (buf o) i = 0)).
Proof.
  split.
  - apply (proj1 fresh_buffer_layout quiet 64).
    + lia.
    + reflexivity.
    + change (64 / 8) with 8. lia.
  - apply (proj2 fresh_buffer_layout (fun _ => inl quiet) quiet); reflexivity.
Defined.





(** On such a display the last, partial page has no bytes: an in-bounds
    [SetPixel] on it indexes past the buffer. *)
Lemma SetPixel_panics_on_partial_page :
  SetPixel {| dev := quiet; w := 128; h := 12; buf := 0x40 :: replicate 128 0 |} 0 8 1
  = Panic "index out of range".
Proof. vm_compute. reflexivity. Qed.

(** A height that is a positive multiple of 8 yields the buffer invariant. *)
Lemma OpenWithI2c_wf (d : Device) (height : Z) :
  0 < height -> height mod 8 = 0 -> 1 + 128 * (height / 8) <= 2 ^ 20 ->
  exists o, OpenWithI2c d height = Return (Some o, None) /\ wf o.
Proof.
  intros Hpos Hm Hmax.
  pose proof (Z.quot_div_nonneg height 8 ltac:(lia) ltac:(lia)) as Hqd.
  pose proof (Z.div_pos height 8 ltac:(lia) ltac:(lia)) as Hq.
  eexists. split; [apply OpenWithI2c_eq; unfold max_alloc; lia|].
  split; cbn [w h buf]; try assumption.
  - int_range.
  - pose proof (Z_div_exact_full_2 height 8 ltac:(lia) Hm). int_range.
  - cbn [length]. rewrite length_replicate, Hqd. lia.
  - cbn [length]. rewrite length_replicate, Hqd. int_range.
  - apply Forall_cons. split; [unfold is_byte; lia|].
    apply Forall_replicate. unfold is_byte. lia.
Qed.

(** ** The addressing scheme is injective *)

Lemma byte_of_pixel_width o o' x y :
  w o' = w o -> byte_of_pixel o' x y = byte_of_pixel o x y.
Proof. intros Hw. unfold byte_of_pixel. rewrite Hw. reflexivity. Qed.

Lemma byte_of_pixel_pos o x y : 0 <= x < w o -> 0 <= y -> 1 <= byte_of_pixel o x y.
Proof.
  intros Hx Hy. unfold byte_of_pixel.
  pose proof (Z.div_pos y 8 Hy ltac:(lia)). nia.
Qed.

Lemma address_injective o x y x' y' :
  0 <= x < w o -> 0 <= x' < w o -> 0 <= y -> 0 <= y' ->
  Z.to_nat (byte_of_pixel o x y) = Z.to_nat (byte_of_pixel o x' y') ->
  bit_of_pixel y = bit_of_pixel y' ->
  x = x' /\ y = y'.
Proof.
  intros Hx Hx' Hy Hy' Hbyte Hbit.
  pose proof (byte_of_pixel_pos o x y Hx Hy).
  pose proof (byte_of_pixel_pos o x' y' Hx' Hy').
  apply Z2Nat.inj in Hbyte; [|lia|lia].
  unfold byte_of_pixel, bit_of_pixel in *.
  assert (y / 8 = y' / 8) as Hq by nia.
  split; [nia|].
  rewrite (Z.div_mod y 8), (Z.div_mod y' 8) by lia. congruence.
Qed.

(** With coordinates that are not negative, [SetPixel] leaves the byte at
    index 0 alone, whatever it returns. *)
Lemma SetPixel_keeps_marker o x y v o' e :
  wf o -> 0 <= x -> 0 <= y -> is_byte v ->
  SetPixel o x y v = Return (o', e) ->
  byteAt (buf o') 0 = byteAt (buf o) 0.
Proof.
  intros Hwf Hx Hy Hv Hret.
  destruct (Z.le_gt_cases (w o) x) as [Hxw|Hxw];
    [|destruct (Z.le_gt_cases (h o) y) as [Hyh|Hyh];
      [|destruct (Z.le_gt_cases v 1) as [Hv1|Hv1]]].
  - rewrite SetPixel_beyond in Hret by lia. congruence.
  - rewrite SetPixel_beyond in Hret by lia. congruence.
  - pose proof (byte_of_pixel_range o x y Hwf ltac:(lia) ltac:(lia)) as Hr.
    rewrite SetPixel_in_bounds_eq in Hret
      by (try assumption; unfold is_byte in Hv; lia).
    injection Hret as <- _. cbn [buf with_buf].
    rewrite byteAt_insert by lia.
    rewrite decide_False by lia. reflexivity.
  - rewrite SetPixel_bad_value in Hret by lia. congruence.
Qed.

(** ** Thresholding *)

Lemma threshold_cases c : threshold c = 0 \/ threshold c = 1.
Proof.
  unfold threshold. destruct (RGBA c) as [[[r g] b] a].
  destruct (_ >? 0); [right | left]; reflexivity.
Qed.

Lemma threshold_lit c : valid_color c -> (threshold c =? 1) = lit c.
Proof.
  unfold valid_color, threshold, lit. destruct (RGBA c) as [[[r g] b] a].
  intros (Hr & Hg & Hb & _). unfold u32.
  rewrite (Z.mod_small (r + g)) by lia.
  rewrite (Z.mod_small (r + g + b)) by lia.
  destruct (r + g + b >? 0); reflexivity.
Qed.

(** ** One in-bounds SetPixel, as the loops of SetImage see it *)

Lemma SetPixel_in_bounds_spec o x y v :
  wf o -> 0 <= x < w o -> 0 <= y < h o -> v = 0 \/ v = 1 ->
  exists o',
    SetPixel o x y v = Return (o', None) /\
    wf o' /\ dev o' = dev o /\ w o' = w o /\ h o' = h o /\
    pixel o' x y = (v =? 1) /\
    forall (k : nat) (n : Z),
      ~ (k = Z.to_nat (byte_of_pixel o x y) /\ n = bit_of_pixel y) ->
      bit_at (buf o') k n = bit_at (buf o) k n.
Proof.
  intros Hwf Hx Hy Hv.
  pose proof (byte_of_pixel_range o x y Hwf Hx Hy) as Hr.
  assert (Z.to_nat (byte_of_pixel o x y) < length (buf o))%nat as Hi by lia.
  eexists. split; [apply SetPixel_in_bounds_eq; assumption|].
  split; [apply SetPixel_wf; assumption|].
  cbn [dev w h buf with_buf]. repeat split.
  - unfold pixel, bit_at. cbn [buf with_buf].
    rewrite (byte_of_pixel_width o (with_buf o _)) by reflexivity.
    rewrite byteAt_insert by assumption. rewrite decide_True by reflexivity.
    rewrite stored_bit by assumption. rewrite Z.eqb_refl. reflexivity.
  - intros k n Hkn. unfold bit_at. rewrite byteAt_insert by assumption.
    destruct (decide (Z.to_nat (byte_of_pixel o x y) = k)) as [<-|Hne]; [|reflexivity].
    rewrite stored_bit by assumption.
    destruct (Z.eqb_spec n (bit_of_pixel y)) as [->|Hn]; [|reflexivity].
    exfalso. apply Hkn. split; reflexivity.
Qed.

Lemma for_range_S {St : Type} (n : nat) (i : Z)
    (body : Z -> St -> outcome (St * option error)) (s : St) :
  for_range (S n) i body s
  = (r ← body i s;
     match r.2 with
     | Some e => Return r
     | None => for_range n (add i 1) body r.1
     end).
Proof. reflexivity. Qed.

Lemma add_1_small i : min_int <= i -> i + 1 <= max_int -> add i 1 = i + 1.
Proof. intros. unfold add. apply wrap_small. int_range. Qed.

(** ** The loops of SetImage *)

Lemma SetImage_row_eq img i imgI j o imgY :
  SetImage_row img i imgI j (o, imgY)
  = (r ← SetPixel o i j (threshold (At img imgI imgY));
     match r.2 with
     | Some err => Return ((r.1, imgY), Some err)
     | None => Return ((r.1, add imgY 1), None)
     end).
Proof. reflexivity. Qed.

Lemma SetImage_column_eq img y rows i o imgI imgY :
  SetImage_column img y rows i (o, imgI, imgY)
  = (r ← for_range rows y (SetImage_row img i imgI) (o, 0);
     match r.2 with
     | Some err => Return ((r.1.1, imgI, r.1.2), Some err)
     | None => Return ((r.1.1, add imgI 1, r.1.2), None)
     end).
Proof. reflexivity. Qed.

Section Blit.
Variable img : Image.
Hypothesis Hcolors : forall u v, valid_color (At img u v).

(** The inner loop paints rows [j .. j + n) of column [i] from the
    source column [imgI], rows [iy ..], and touches no other bit. *)
Lemma SetImage_rows_spec (i imgI : Z) :
  forall (n : nat) (o : OLED) (j iy : Z),
    wf o -> 0 <= i < w o -> 0 <= j -> j + Z.of_nat n <= h o ->
    0 <= iy -> iy + Z.of_nat n <= max_int ->
    exists o',
      for_range n j (SetImage_row img i imgI) (o, iy)
      = Return ((o', iy + Z.of_nat n), None) /\
      wf o' /\ dev o' = dev o /\ w o' = w o /\ h o' = h o /\
      (forall j', j <= j' < j + Z.of_nat n ->
         pixel o' i j' = lit (At img imgI (iy + (j' - j)))) /\
      (forall (k : nat) (m : Z),
         (forall j', j <= j' < j + Z.of_nat n ->
            ~ (k = Z.to_nat (byte_of_pixel o i j') /\ m = bit_of_pixel j')) ->
         bit_at (buf o') k m = bit_at (buf o) k m).
Proof.
  induction n as [|n IH]; intros o j iy Hwf Hi Hj Hjn Hiy Hiyn.
  - exists o. cbn [for_range]. rewrite Z.add_0_r.
    split; [reflexivity|]. split; [assumption|].
    do 3 (split; [reflexivity|]).
    split; [intros j' Hj'; lia | reflexivity].
  - pose proof Hwf as [_ Hh _ _ _ _].
    destruct (SetPixel_in_bounds_spec o i j (threshold (At img imgI iy)))
      as (o1 & Hsp & Hwf1 & Hd1 & Hw1 & Hh1 & Hpix1 & Hfr1);
      [assumption | assumption | lia | apply threshold_cases |].
    destruct (IH o1 (j + 1) (iy + 1)) as (o' & Hloop & Hwf' & Hd' & Hw' & Hh' & Hpix' & Hfr');
      [assumption | lia | lia | lia | lia | lia |].
    exists o'. split.
    { rewrite for_range_S, SetImage_row_eq.
      rewrite Hsp. cbn [mbind outcome_bind fst snd].
      rewrite !add_1_small by int_range.
      rewrite Hloop. do 3 f_equal. lia. }
    split; [assumption|].
    split; [congruence|]. split; [congruence|]. split; [congruence|].
    split.
    + intros j' Hj'. destruct (Z.eq_dec j' j) as [->|Hne].
      * unfold pixel. rewrite (byte_of_pixel_width o1 o') by assumption.
        rewrite Hfr'.
        -- fold (pixel o1 i j). rewrite Hpix1, threshold_lit by apply Hcolors.
           do 2 f_equal. lia.
        -- intros j'' Hj'' [Hk Hm].
           rewrite (byte_of_pixel_width o o1) in Hk by assumption.
           rewrite (byte_of_pixel_width o o1 _ j'') in Hk by assumption.
           destruct (address_injective o i j i j'') as [_ Heq]; try assumption; lia.
      * rewrite Hpix' by lia. do 2 f_equal. lia.
    + intros k m Hkm. rewrite Hfr'.
      * apply Hfr1. apply Hkm. lia.
      * intros j' Hj'. rewrite (byte_of_pixel_width o o1) by assumption.
        apply Hkm. lia.
Qed.
End Blit.

Section BlitColumns.
Variable img : Image.
Hypothesis Hcolors : forall u v, valid_color (At img u v).
Variables (y : Z) (rows : nat).

(** The outer loop paints columns [i .. i + n), rows [y .. y + rows), from
    the source columns [ix ..], rows [0 ..], and touches no other bit. *)
Lemma SetImage_columns_spec :
  forall (n : nat) (o : OLED) (i ix iy : Z),
    wf o -> 0 <= i -> i + Z.of_nat n <= w o ->
    0 <= y -> y + Z.of_nat rows <= h o ->
    0 <= ix -> ix + Z.of_nat n <= max_int ->
    exists o' iy',
      for_range n i (SetImage_column img y rows) (o, ix, iy)
      = Return ((o', ix + Z.of_nat n, iy'), None) /\
      wf o' /\ dev o' = dev o /\ w o' = w o /\ h o' = h o /\
      (forall i' j', i <= i' < i + Z.of_nat n -> y <= j' < y + Z.of_nat rows ->
         pixel o' i' j' = lit (At img (ix + (i' - i)) (j' - y))) /\
      (forall (k : nat) (m : Z),
         (forall i' j', i <= i' < i + Z.of_nat n -> y <= j' < y + Z.of_nat rows ->
            ~ (k = Z.to_nat (byte_of_pixel o i' j') /\ m = bit_of_pixel j')) ->
         bit_at (buf o') k m = bit_at (buf o) k m).
Proof.
  induction n as [|n IH]; intros o i ix iy Hwf Hi Hin Hy Hrows Hix Hixn.
  - exists o, iy. cbn [for_range]. rewrite Z.add_0_r.
    split; [reflexivity|]. split; [assumption|].
    do 3 (split; [reflexivity|]).
    split; [intros i' j' Hi'; lia | reflexivity].
  - pose proof Hwf as [Hw Hh _ _ _ _].
    destruct (SetImage_rows_spec img Hcolors i ix rows o y 0)
      as (o1 & Hrow & Hwf1 & Hd1 & Hw1 & Hh1 & Hpix1 & Hfr1);
      [assumption | lia | assumption | assumption | lia | int_range |].
    destruct (IH o1 (i + 1) (ix + 1) (0 + Z.of_nat rows))
      as (o' & iy' & Hloop & Hwf' & Hd' & Hw' & Hh' & Hpix' & Hfr');
      [assumption | lia | lia | lia | lia | lia | lia |].
    exists o', iy'. split.
    { rewrite for_range_S, SetImage_column_eq.
      rewrite Hrow. cbn [mbind outcome_bind fst snd].
      rewrite !add_1_small by int_range.
      rewrite Hloop. do 4 f_equal. lia. }
    split; [assumption|].
    split; [congruence|]. split; [congruence|]. split; [congruence|].
    split.
    + intros i' j' Hi' Hj'. destruct (Z.eq_dec i' i) as [->|Hne].
      * unfold pixel. rewrite (byte_of_pixel_width o1 o') by assumption.
        rewrite Hfr'.
        -- fold (pixel o1 i j'). rewrite Hpix1 by assumption.
           f_equal. f_equal; lia.
        -- intros i'' j'' Hi'' Hj'' [Hk Hm].
           destruct (address_injective o1 i j' i'' j'') as [Heq _];
             try assumption; lia.
      * rewrite Hpix' by lia. f_equal. f_equal; lia.
    + intros k m Hkm. rewrite Hfr'.
      * apply Hfr1. intros j' Hj'. apply Hkm; lia.
      * intros i' j' Hi' Hj'. rewrite (byte_of_pixel_width o o1) by assumption.
        apply Hkm; lia.
Qed.

(** With no rows to paint, the outer loop changes nothing. *)
Lemma SetImage_columns_no_rows :
  rows = 0%nat ->
  forall (n : nat) (o : OLED) (i ix iy : Z),
    exists ix' iy',
      for_range n i (SetImage_column img y rows) (o, ix, iy)
      = Return ((o, ix', iy'), None).
Proof.
  intros ->. induction n as [|n IH]; intros o i ix iy.
  - exists ix, iy. reflexivity.
  - rewrite for_range_S, SetImage_column_eq. cbn [for_range mbind outcome_bind fst snd].
    apply IH.
Qed.
End BlitColumns.

(** ** SetImage *)

Lemma clip_cases (e lim : Z) :
  (if e >=? lim then lim else e) = Z.min e lim.
Proof. rewrite Z.geb_leb. destruct (Z.leb_spec lim e); lia. Qed.

(** Starting at or beyond the right or bottom edge, nothing is written. *)
Lemma SetImage_noop (o : OLED) (x y : Z) (img : Image) :
  w o <= x \/ h o <= y -> SetImage o x y img = Return (o, None).
Proof.
  intros Hedge. unfold SetImage. rewrite !clip_cases.
  destruct (Z.le_gt_cases (w o) x) as [Hx|Hx].
  - replace (Z.to_nat (Z.min (add x (Dx (Bounds img))) (w o) - x)) with 0%nat by lia.
    reflexivity.
  - destruct Hedge as [Hw|Hh]; [lia|].
    destruct (SetImage_columns_no_rows img y
                (Z.to_nat (Z.min (add y (Dy (Bounds img))) (h o) - y))
                ltac:(lia)
                (Z.to_nat (Z.min (add x (Dx (Bounds img))) (w o) - x)) o x 0 0)
      as (ix' & iy' & Heq).
    rewrite Heq. reflexivity.
Qed.

(** What [SetImage] writes.  For [x, y >= 0] on a display with the page
    layout, and a source whose colours respect the channel range, it returns
    no error; every in-bounds pixel (i, j) of the rectangle placed at (x, y)
    ends up on exactly when the colour that [At] gives for (i - x, j - y),
    counted from (0, 0), has a channel sum above zero; every bit of the
    buffer that is not such a pixel keeps its value; and when [x >= width]
    or [y >= height] the display is left exactly as it was. *)
Theorem SetImage_clips (o : OLED) (x y : Z) (img : Image) :
  wf o -> 0 <= x -> 0 <= y ->
  x + Dx (Bounds img) <= max_int -> y + Dy (Bounds img) <= max_int ->
  (forall u v, valid_color (At img u v)) ->
  exists o',
    SetImage o x y img = Return (o', None) /\
    dev o' = dev o /\ w o' = w o /\ h o' = h o /\
    length (buf o') = length (buf o) /\
    (forall i j, 0 <= i < w o -> 0 <= j < h o ->
       x <= i < x + Dx (Bounds img) -> y <= j < y + Dy (Bounds img) ->
       pixel o' i j = lit (At img (i - x) (j - y))) /\
    (forall (k : nat) (m : Z),
       (forall i j, 0 <= i < w o -> 0 <= j < h o ->
          x <= i < x + Dx (Bounds img) -> y <= j < y + Dy (Bounds img) ->
          ~ (k = Z.to_nat (byte_of_pixel o i j) /\ m = bit_of_pixel j)) ->
       bit_at (buf o') k m = bit_at (buf o) k m) /\
    (w o <= x \/ h o <= y -> o' = o).
Proof.
  intros Hwf Hx Hy HX HY Hcolors.
  destruct (Z.le_gt_cases (w o) x) as [Hxw|Hxw];
    [|destruct (Z.le_gt_cases (h o) y) as [Hyh|Hyh]].
  1,2: exists o; split; [apply SetImage_noop; lia|];
       do 4 (split; [reflexivity|]);
       split; [intros i j Hi Hj Hri Hrj; lia|];
       split; [reflexivity | reflexivity].
  pose proof Hwf as [Hw Hh _ Hlen _ _].
  pose proof (wrap_is_int (X (Max (Bounds img)) - X (Min (Bounds img)))) as HDx.
  pose proof (wrap_is_int (Y (Max (Bounds img)) - Y (Min (Bounds img)))) as HDy.
  fold (sub (X (Max (Bounds img))) (X (Min (Bounds img)))) in HDx.
  fold (sub (Y (Max (Bounds img))) (Y (Min (Bounds img)))) in HDy.
  fold (Dx (Bounds img)) in HDx. fold (Dy (Bounds img)) in HDy.
  assert (add x (Dx (Bounds img)) = x + Dx (Bounds img)) as HaddX
    by (unfold add; apply wrap_small; int_range).
  assert (add y (Dy (Bounds img)) = y + Dy (Bounds img)) as HaddY
    by (unfold add; apply wrap_small; int_range).
  destruct (SetImage_columns_spec img Hcolors y
              (Z.to_nat (Z.min (y + Dy (Bounds img)) (h o) - y))
              (Z.to_nat (Z.min (x + Dx (Bounds img)) (w o) - x)) o x 0 0)
    as (o' & iy' & Hloop & Hwf' & Hd' & Hw' & Hh' & Hpix' & Hfr');
    [assumption | lia | lia | lia | lia | lia | int_range |].
  exists o'. split.
  { unfold SetImage. rewrite !clip_cases, HaddX, HaddY, Hloop. reflexivity. }
  do 3 (split; [assumption|]).
  split.
  { destruct Hwf' as [_ _ _ Hlen' _ _]. rewrite Hw', Hh' in Hlen'. lia. }
  split.
  { intros i j Hi Hj Hri Hrj. rewrite Hpix' by lia. f_equal. }
  split.
  { intros k m Hkm. apply Hfr'. intros i j Hi Hj. apply Hkm; lia. }
  intros [Hedge|Hedge]; lia.
Qed.

Lemma wf_opened : wf opened.
Proof.
  split; cbn [w h buf opened].
  - unfold is_int, min_int, max_int. lia.
  - unfold is_int, min_int, max_int. lia.
  - reflexivity.
  - reflexivity.
  - unfold max_int. cbn [length]. rewrite length_replicate. lia.
  - apply Forall_cons. split; [unfold is_byte; lia|].
    apply Forall_replicate. unfold is_byte. lia.
Defined.

Lemma white_valid (n m u v : Z) : valid_color (At (white n m) u v).
Proof. cbn. lia. Defined.

Lemma SetImage_clips_witness :
  exists o',
    SetImage opened 126 60 (white 10 10) = Return (o', None) /\
    dev o' = dev opened /\ w o' = w opened /\ h o' = h opened /\
    length (buf o') = length (buf opened) /\
    (forall i j, 0 <= i < w opened -> 0 <= j < h opened ->
       126 <= i < 126 + Dx (Bounds (white 10 10)) ->
       60 <= j < 60 + Dy (Bounds (white 10 10)) ->
       pixel o' i j = lit (At (white 10 10) (i - 126) (j - 60))) /\
    (forall (k : nat) (m : Z),
       (forall i j, 0 <= i < w opened -> 0 <= j < h opened ->
          126 <= i < 126 + Dx (Bounds (white 10 10)) ->
          60 <= j < 60 + Dy (Bounds (white 10 10)) ->
          ~ (k = Z.to_nat (byte_of_pixel opened i j) /\ m = bit_of_pixel j)) ->
       bit_at (buf o') k m = bit_at (buf opened) k m) /\
    (w opened <= 126 \/ h opened <= 60 -> o' = opened).
Proof.
  apply (SetImage_clips opened 126 60 (white 10 10)).
  - exact wf_opened.
  - lia.
  - lia.
  - change (Dx (Bounds (white 10 10))) with 10. unfold max_int. lia.
  - change (Dy (Bounds (white 10 10))) with 10. unfold max_int. lia.
  - apply white_valid.
Defined.

(** The clipped corner: a white 10x10 picture at (126, 60) turns on rows
    60 to 63 of columns 126 and 127, the top four bits of the last two
    bytes, and nothing else. *)
Example SetImage_corner :
  SetImage opened 126 60 (white 10 10)
  = Return (with_buf opened (0x40 :: replicate 1022 0 ++ [0xF0; 0xF0]), None).
Proof. vm_compute. reflexivity. Qed.

(** The source is read at (i - x, j - y) counted from (0, 0), wherever its
    bounds start: the lit pixel of [offset_dot] is never looked at. *)
Example SetImage_reads_from_origin :
  lit (At offset_dot 5 5) = true /\
  SetImage tiny 0 0 offset_dot = Return (tiny, None).
Proof. split; vm_compute; reflexivity. Qed.

(** C8. The source is read from (0, 0), not from the corner of its bounds.
    [offset_dot] is a picture one pixel wide and high, with bounds
    (5,5)-(6,6), whose pixel is white and which is black everywhere
    outside.  Blitted at (0, 0) on the 128x64 display that [Open] returns it
    should turn pixel (0, 0) on; [SetImage] asks for [At(0, 0)], outside the
    picture, and returns the display as it was, pixel (0, 0) off. *)
Theorem SetImage_ignores_the_picture_origin :
  Min (Bounds offset_dot) = {| X := 5; Y := 5 |} /\
  Dx (Bounds offset_dot) = 1 /\ Dy (Bounds offset_dot) = 1 /\
  lit (At offset_dot 5 5) = true /\
  lit (At offset_dot 0 0) = false /\
  SetImage opened 0 0 offset_dot = Return (opened, None) /\
  pixel opened 0 0 = false.
Proof. repeat split; vm_compute; reflexivity. Qed.

(** ** Clear *)

Lemma Clear_loop_spec :
  forall (n : nat) (o : OLED) (i : Z),
    1 <= i ->
    ((0 < n)%nat -> i + Z.of_nat n <= Z.of_nat (length (buf o))) ->
    Z.of_nat (length (buf o)) <= max_int ->
    exists o',
      for_range n i
        (fun i o => s ← assign (buf o) i 0; Return (with_buf o s, None)) o
      = Return (o', None) /\
      dev o' = dev o /\ w o' = w o /\ h o' = h o /\
      length (buf o') = length (buf o) /\
      forall k : nat,
        byteAt (buf o') k
        = if (i <=? Z.of_nat k) && (Z.of_nat k <? i + Z.of_nat n) then 0
          else byteAt (buf o) k.
Proof.
  induction n as [|n IH]; intros o i Hi Hin Hmax.
  - exists o. cbn [for_range]. repeat split.
    intros k.
    destruct (Z.leb_spec i (Z.of_nat k)), (Z.ltb_spec (Z.of_nat k) (i + Z.of_nat 0));
      cbn; try reflexivity; lia.
  - specialize (Hin ltac:(lia)).
    assert (Z.to_nat i < length (buf o))%nat as Hlt by lia.
    destruct (IH (with_buf o (<[Z.to_nat i := 0]> (buf o))) (i + 1))
      as (o' & Hloop & Hd & Hw & Hh & Hlen & Hbytes);
      [lia | cbn [buf with_buf]; rewrite length_insert; lia
           | cbn [buf with_buf]; rewrite length_insert; lia |].
    exists o'. split.
    { rewrite for_range_S. unfold assign. rewrite in_range_true by lia.
      cbn [mbind outcome_bind fst snd].
      rewrite add_1_small by int_range. exact Hloop. }
    cbn [dev w h buf with_buf] in *. rewrite length_insert in Hlen.
    do 4 (split; [assumption|]).
    intros k. rewrite Hbytes, byteAt_insert by assumption.
    destruct (decide (Z.to_nat i = k)) as [<-|Hne].
    + replace (i <=? Z.of_nat (Z.to_nat i)) with true by (symmetry; apply Z.leb_le; lia).
      replace (Z.of_nat (Z.to_nat i) <? i + Z.of_nat (S n)) with true
        by (symmetry; apply Z.ltb_lt; lia).
      destruct (_ && _); reflexivity.
    + destruct (Z.leb_spec (i + 1) (Z.of_nat k)), (Z.leb_spec i (Z.of_nat k)),
        (Z.ltb_spec (Z.of_nat k) (i + 1 + Z.of_nat n)),
        (Z.ltb_spec (Z.of_nat k) (i + Z.of_nat (S n))); cbn; try reflexivity; lia.
Qed.

(** [Clear] zeroes every byte but the first, then flushes. *)
Lemma Clear_spec (o : OLED) :
  Z.of_nat (length (buf o)) <= max_int ->
  exists o',
    Clear o = Return (Draw o') /\
    dev o' = dev o /\ w o' = w o /\ h o' = h o /\
    length (buf o') = length (buf o) /\
    byteAt (buf o') 0 = byteAt (buf o) 0 /\
    forall k : nat, (1 <= k)%nat -> byteAt (buf (Draw o').1) k = 0.
Proof.
  intros Hmax.
  destruct (Clear_loop_spec (Z.to_nat (Z.of_nat (length (buf o)) - 1)) o 1)
    as (o' & Hloop & Hd & Hw & Hh & Hlen & Hbytes); [lia | lia | assumption |].
  exists o'. split.
  { unfold Clear. rewrite Hloop. reflexivity. }
  do 4 (split; [assumption|]).
  split.
  - rewrite Hbytes. reflexivity.
  - intros k Hk. rewrite Draw_buf, Hbytes.
    destruct (Z.leb_spec 1 (Z.of_nat k)); [|lia].
    destruct (Z.ltb_spec (Z.of_nat k)
                (1 + Z.of_nat (Z.to_nat (Z.of_nat (length (buf o)) - 1)))) as [Hin|Hout];
      [reflexivity|].
    cbn [andb]. unfold byteAt. rewrite lookup_ge_None_2 by lia. reflexivity.
Qed.


(** * Further properties of the driver *)

(** ** Buffers are determined by their bits *)

Lemma bytes_ext (s t : list Z) :
  length s = length t ->
  (forall (k : nat) (n : Z), bit_at s k n = bit_at t k n) -> s = t.
Proof.
  intros Hlen Hbits. apply list_eq. intros k.
  destruct (s !! k) as [a|] eqn:Ea, (t !! k) as [b|] eqn:Eb.
  - f_equal. apply Z.bits_inj'. intros n _.
    specialize (Hbits k n). unfold bit_at, byteAt in Hbits.
    rewrite Ea, Eb in Hbits. exact Hbits.
  - apply lookup_lt_Some in Ea. apply lookup_ge_None in Eb. lia.
  - apply lookup_ge_None in Ea. apply lookup_lt_Some in Eb. lia.
  - reflexivity.
Qed.

Lemma OLED_ext (o1 o2 : OLED) :
  dev o1 = dev o2 -> w o1 = w o2 -> h o1 = h o2 -> buf o1 = buf o2 -> o1 = o2.
Proof. destruct o1, o2. cbn. intros -> -> -> ->. reflexivity. Qed.

(** An in-bounds [SetPixel], bit by bit. *)
Lemma SetPixel_bits o x y v :
  wf o -> 0 <= x < w o -> 0 <= y < h o -> v = 0 \/ v = 1 ->
  exists o',
    SetPixel o x y v = Return (o', None) /\ wf o' /\
    dev o' = dev o /\ w o' = w o /\ h o' = h o /\
    length (buf o') = length (buf o) /\
    forall (k : nat) (n : Z),
      bit_at (buf o') k n
      = if decide (k = Z.to_nat (byte_of_pixel o x y) /\ n = bit_of_pixel y)
        then (v =? 1) else bit_at (buf o) k n.
Proof.
  intros Hwf Hx Hy Hv.
  pose proof (byte_of_pixel_range o x y Hwf Hx Hy) as Hr.
  assert (Z.to_nat (byte_of_pixel o x y) < length (buf o))%nat as Hi by lia.
  eexists. split; [apply SetPixel_in_bounds_eq; assumption|].
  split; [apply SetPixel_wf; assumption|].
  cbn [dev w h buf with_buf]. rewrite length_insert.
  do 4 (split; [reflexivity|]).
  intros k n. unfold bit_at. rewrite byteAt_insert by assumption.
  destruct (decide (Z.to_nat (byte_of_pixel o x y) = k)) as [<-|Hne].
  - rewrite stored_bit by assumption.
    destruct (Z.eqb_spec n (bit_of_pixel y)) as [->|Hn].
    + rewrite decide_True by (split; reflexivity). reflexivity.
    + rewrite decide_False by (intros [_ Hc]; contradiction). reflexivity.
  - rewrite decide_False by (intros [Hc _]; congruence). reflexivity.
Qed.

(** Writing the value a pixel already has changes nothing. *)
Lemma SetPixel_same_value o x y v :
  wf o -> 0 <= x < w o -> 0 <= y < h o -> v = 0 \/ v = 1 ->
  pixel o x y = (v =? 1) ->
  SetPixel o x y v = Return (o, None).
Proof.
  intros Hwf Hx Hy Hv Hpix.
  destruct (SetPixel_bits o x y v Hwf Hx Hy Hv)
    as (o' & Hsp & _ & Hd & Hw & Hh & Hlen & Hbits).
  rewrite Hsp. do 2 f_equal. apply OLED_ext; try assumption.
  apply bytes_ext; [assumption|]. intros k n. rewrite Hbits.
  destruct (decide _) as [[-> ->]|_]; [|reflexivity].
  symmetry. exact Hpix.
Qed.

Lemma wf_tiny : wf tiny.
Proof.
  split; cbn [w h buf tiny].
  - unfold is_int, min_int, max_int. lia.
  - unfold is_int, min_int, max_int. lia.
  - reflexivity.
  - reflexivity.
  - unfold max_int. cbn [length]. lia.
  - repeat constructor; unfold is_byte; lia.
Defined.

Lemma SetPixel_frame o x y v o' e :
  SetPixel o x y v = Return (o', e) ->
  dev o' = dev o /\ w o' = w o /\ h o' = h o /\
  length (buf o') = length (buf o).
Proof.
  unfold SetPixel.
  destruct ((x >=? w o) || (y >=? h o)); [intros [= <- _]; repeat split|].
  destruct (v >? 1); [intros [= <- _]; repeat split|].
  destruct (v =? 0); unfold index, assign;
    destruct (in_range (buf o) _); cbn [mbind outcome_bind]; try discriminate;
    intros [= <- _]; cbn [dev w h buf with_buf]; rewrite length_insert;
    repeat split.
Qed.

(** ** SetPixel as a user sees it *)

(** X1. On a display with the page layout, a call with coordinates that are
    not negative and a byte value always returns: with no error exactly when
    [x < width], [y < height] and [v <= 1]; with the out-of-bounds error
    when a coordinate is too large, whatever the value; with the value error
    otherwise; and a call that reports an error has changed nothing. *)
Theorem SetPixel_total_on_nonnegative (o : OLED) (x y v : Z) :
  wf o -> 0 <= x -> 0 <= y -> is_byte v ->
  exists o' e,
    SetPixel o x y v = Return (o', e) /\
    (e = None <-> x < w o /\ y < h o /\ v <= 1) /\
    (w o <= x \/ h o <= y -> e = Some (ErrOutOfBounds x y (w o) (h o))) /\
    (x < w o -> y < h o -> 1 < v -> e = Some (ErrValue v)) /\
    (e <> None -> o' = o).
Proof.
  intros Hwf Hx Hy Hv.
  destruct (Z.le_gt_cases (w o) x) as [Hxw|Hxw];
    [|destruct (Z.le_gt_cases (h o) y) as [Hyh|Hyh];
      [|destruct (Z.le_gt_cases v 1) as [Hv1|Hv1]]].
  - exists o, (Some (ErrOutOfBounds x y (w o) (h o))).
    split; [apply SetPixel_beyond; lia|].
    repeat split; try discriminate; try reflexivity; lia.
  - exists o, (Some (ErrOutOfBounds x y (w o) (h o))).
    split; [apply SetPixel_beyond; lia|].
    repeat split; try discriminate; try reflexivity; lia.
  - eexists _, None.
    split; [apply SetPixel_in_bounds_eq; try assumption; unfold is_byte in Hv; lia|].
    repeat split; try lia; congruence.
  - exists o, (Some (ErrValue v)).
    split; [apply SetPixel_bad_value; lia|].
    repeat split; try discriminate; try reflexivity; lia.
Qed.

Lemma SetPixel_total_on_nonnegative_witness :
  exists o' e,
    SetPixel tiny 5 0 7 = Return (o', e) /\
    (e = None <-> 5 < w tiny /\ 0 < h tiny /\ 7 <= 1) /\
    (w tiny <= 5 \/ h tiny <= 0 -> e = Some (ErrOutOfBounds 5 0 (w tiny) (h tiny))) /\
    (5 < w tiny -> 0 < h tiny -> 1 < 7 -> e = Some (ErrValue 7)) /\
    (e <> None -> o' = tiny).
Proof.
  apply (SetPixel_total_on_nonnegative tiny 5 0 7).
  - exact wf_tiny.
  - lia.
  - lia.
  - unfold is_byte. lia.
Defined.

(** X2. Whatever the arguments, negative or out of range included, a call
    that returns has left the connection, the width, the height and the
    length of the buffer as they were: a pixel write sends nothing and never
    resizes the display. *)
Theorem SetPixel_touches_only_buffer_contents (o : OLED) (x y v : Z) (o' : OLED)
    (e : option error) :
  SetPixel o x y v = Return (o', e) ->
  dev o' = dev o /\ Width o' = Width o /\ Height o' = Height o /\
  length (buf o') = length (buf o).
Proof. apply SetPixel_frame. Qed.

Lemma SetPixel_touches_only_buffer_contents_witness :
  dev (with_buf opened (0x41 :: replicate 1024 0)) = dev opened /\
  Width (with_buf opened (0x41 :: replicate 1024 0)) = Width opened /\
  Height (with_buf opened (0x41 :: replicate 1024 0)) = Height opened /\
  length (buf (with_buf opened (0x41 :: replicate 1024 0))) = length (buf opened).
Proof.
  apply (SetPixel_touches_only_buffer_contents opened (-1) 0 1 _ None).
  vm_compute. reflexivity.
Defined.

(** X3. The last write to a pixel wins: writing [v1] and then [v2] to the
    same in-bounds pixel leaves the display exactly as writing [v2] alone
    does.  With [v1 = v2] this says that a write is idempotent. *)
Theorem SetPixel_last_write_wins (o : OLED) (x y v1 v2 : Z) :
  wf o -> 0 <= x < w o -> 0 <= y < h o ->
  v1 = 0 \/ v1 = 1 -> v2 = 0 \/ v2 = 1 ->
  exists o1 o2,
    SetPixel o x y v1 = Return (o1, None) /\
    SetPixel o1 x y v2 = Return (o2, None) /\
    SetPixel o x y v2 = Return (o2, None).
Proof.
  intros Hwf Hx Hy Hv1 Hv2.
  destruct (SetPixel_bits o x y v1 Hwf Hx Hy Hv1)
    as (o1 & Hsp1 & Hwf1 & Hd1 & Hw1 & Hh1 & Hlen1 & Hbits1).
  destruct (SetPixel_bits o1 x y v2 Hwf1 ltac:(lia) ltac:(lia) Hv2)
    as (o2 & Hsp2 & Hwf2 & Hd2 & Hw2 & Hh2 & Hlen2 & Hbits2).
  destruct (SetPixel_bits o x y v2 Hwf Hx Hy Hv2)
    as (o3 & Hsp3 & Hwf3 & Hd3 & Hw3 & Hh3 & Hlen3 & Hbits3).
  exists o1, o2. split; [assumption|]. split; [assumption|].
  rewrite Hsp3. do 2 f_equal.
  apply OLED_ext; try congruence.
  apply bytes_ext; [congruence|]. intros k n.
  rewrite Hbits3, Hbits2, Hbits1.
  rewrite (byte_of_pixel_width o o1) by assumption.
  destruct (decide _); reflexivity.
Qed.

Lemma SetPixel_last_write_wins_witness :
  exists o1 o2,
    SetPixel tiny 1 3 1 = Return (o1, None) /\
    SetPixel o1 1 3 0 = Return (o2, None) /\
    SetPixel tiny 1 3 0 = Return (o2, None).
Proof.
  apply (SetPixel_last_write_wins tiny 1 3 1 0).
  - exact wf_tiny.
  - cbn; lia.
  - cbn; lia.
  - right; reflexivity.
  - left; reflexivity.
Defined.

(** X4. Writing to an in-bounds pixel the value it already has returns the
    very same display: turning on a lit pixel, or off a dark one, changes no
    byte. *)
Theorem SetPixel_of_present_value_changes_nothing (o : OLED) (x y v : Z) :
  wf o -> 0 <= x < w o -> 0 <= y < h o -> v = 0 \/ v = 1 ->
  pixel o x y = (v =? 1) ->
  SetPixel o x y v = Return (o, None).
Proof. apply SetPixel_same_value. Qed.

Lemma SetPixel_of_present_value_changes_nothing_witness :
  SetPixel tiny 1 3 0 = Return (tiny, None).
Proof.
  apply (SetPixel_of_present_value_changes_nothing tiny 1 3 0).
  - exact wf_tiny.
  - cbn; lia.
  - cbn; lia.
  - left; reflexivity.
  - reflexivity.
Defined.

(** X5. Writes to two different in-bounds pixels commute: either order
    succeeds and ends in the same display, also when both pixels live in the
    same byte. *)
Theorem SetPixel_commutes_on_distinct_pixels (o : OLED) (x1 y1 v1 x2 y2 v2 : Z) :
  wf o -> 0 <= x1 < w o -> 0 <= y1 < h o -> 0 <= x2 < w o -> 0 <= y2 < h o ->
  v1 = 0 \/ v1 = 1 -> v2 = 0 \/ v2 = 1 ->
  (x1, y1) <> (x2, y2) ->
  exists a b c,
    SetPixel o x1 y1 v1 = Return (a, None) /\
    SetPixel a x2 y2 v2 = Return (b, None) /\
    SetPixel o x2 y2 v2 = Return (c, None) /\
    SetPixel c x1 y1 v1 = Return (b, None).
Proof.
  intros Hwf Hx1 Hy1 Hx2 Hy2 Hv1 Hv2 Hne.
  destruct (SetPixel_bits o x1 y1 v1 Hwf Hx1 Hy1 Hv1)
    as (a & Hspa & Hwfa & Hda & Hwa & Hha & Hlena & Hbitsa).
  destruct (SetPixel_bits a x2 y2 v2 Hwfa ltac:(lia) ltac:(lia) Hv2)
    as (b & Hspb & Hwfb & Hdb & Hwb & Hhb & Hlenb & Hbitsb).
  destruct (SetPixel_bits o x2 y2 v2 Hwf Hx2 Hy2 Hv2)
    as (c & Hspc & Hwfc & Hdc & Hwc & Hhc & Hlenc & Hbitsc).
  destruct (SetPixel_bits c x1 y1 v1 Hwfc ltac:(lia) ltac:(lia) Hv1)
    as (d & Hspd & Hwfd & Hdd & Hwd & Hhd & Hlend & Hbitsd).
  exists a, b, c. do 3 (split; [assumption|]).
  rewrite Hspd. do 2 f_equal.
  apply OLED_ext; try congruence.
  apply bytes_ext; [congruence|]. intros k n.
  rewrite Hbitsd, Hbitsc, Hbitsb, Hbitsa.
  rewrite (byte_of_pixel_width o a), (byte_of_pixel_width o c) by assumption.
  destruct (decide (k = Z.to_nat (byte_of_pixel o x1 y1) /\ n = bit_of_pixel y1))
    as [[Hk1 Hn1]|H1];
    destruct (decide (k = Z.to_nat (byte_of_pixel o x2 y2) /\ n = bit_of_pixel y2))
    as [[Hk2 Hn2]|H2]; try reflexivity.
  exfalso. apply Hne.
  destruct (address_injective o x1 y1 x2 y2) as [-> ->];
    try assumption; try lia; congruence.
Qed.

Lemma SetPixel_commutes_on_distinct_pixels_witness :
  exists a b c,
    SetPixel tiny 1 3 1 = Return (a, None) /\
    SetPixel a 1 5 1 = Return (b, None) /\
    SetPixel tiny 1 5 1 = Return (c, None) /\
    SetPixel c 1 3 1 = Return (b, None).
Proof.
  apply (SetPixel_commutes_on_distinct_pixels tiny 1 3 1 1 5 1).
  - exact wf_tiny.
  - cbn; lia.
  - cbn; lia.
  - cbn; lia.
  - cbn; lia.
  - right; reflexivity.
  - right; reflexivity.
  - discriminate.
Defined.

(** ** Clear *)

Lemma Draw_traffic (o : OLED) :
  match fails (dev o) (length (written (dev o))) with
  | Some msg =>
      written (dev (Draw o).1) = written (dev o) ++ [drawCmd] /\
      (Draw o).2 = Some (ErrTransport msg)
  | None =>
      written (dev (Draw o).1) = written (dev o) ++ [drawCmd; buf o] /\
      (Draw o).2 = ErrTransport <$> fails (dev o) (S (length (written (dev o))))
  end.
Proof.
  unfold Draw, Write. destruct (fails (dev o) (length (written (dev o)))) eqn:E.
  - cbn. split; reflexivity.
  - cbn. rewrite <- app_assoc. split; [reflexivity|].
    rewrite length_app, Nat.add_1_r. reflexivity.
Qed.

Lemma Draw_wf (o : OLED) : wf o -> wf (Draw o).1.
Proof.
  intros [Hw Hh Hp Hlen Hmax Hb].
  pose proof (Draw_buf o) as Hbuf. pose proof (Draw_geometry o) as [Hw' Hh'].
  split; rewrite ?Hbuf, ?Hw', ?Hh'; assumption.
Qed.

Lemma zeroed_is_bytes (s t : list Z) :
  Forall is_byte s ->
  (forall k : nat, byteAt t k = 0 \/ byteAt t k = byteAt s k) ->
  Forall is_byte t.
Proof.
  intros Hs Hk. apply Forall_lookup. intros i b Hib.
  assert (byteAt t i = b) as Hb by (unfold byteAt; rewrite Hib; reflexivity).
  specialize (Hk i). rewrite Hb in Hk.
  destruct Hk as [-> | ->]; [unfold is_byte; lia | apply byteAt_is_byte, Hs].
Qed.

(** What [Clear] does, for any buffer. *)
Lemma Clear_effect (o : OLED) :
  Z.of_nat (length (buf o)) <= max_int ->
  exists o' e,
    Clear o = Return (o', e) /\
    Width o' = Width o /\ Height o' = Height o /\
    length (buf o') = length (buf o) /\
    byteAt (buf o') 0 = byteAt (buf o) 0 /\
    (forall k : nat, (1 <= k)%nat -> byteAt (buf o') k = 0) /\
    (forall x y, 0 <= x -> 0 <= y -> 0 <= w o -> pixel o' x y = false) /\
    (wf o -> wf o') /\
    match fails (dev o) (length (written (dev o))) with
    | Some msg =>
        written (dev o') = written (dev o) ++ [drawCmd] /\
        e = Some (ErrTransport msg)
    | None =>
        written (dev o') = written (dev o) ++ [drawCmd; buf o'] /\
        e = ErrTransport <$> fails (dev o) (S (length (written (dev o))))
    end.
Proof.
  intros Hmax.
  destruct (Clear_loop_spec (Z.to_nat (Z.of_nat (length (buf o)) - 1)) o 1)
    as (z & Hloop & Hd & Hw & Hh & Hlen & Hbytes); [lia | lia | assumption |].
  assert (forall k : nat, (1 <= k)%nat -> byteAt (buf z) k = 0) as Hzero.
  { intros k Hk. rewrite Hbytes.
    destruct (Z.leb_spec 1 (Z.of_nat k)); [|lia].
    destruct (Z.ltb_spec (Z.of_nat k)
                (1 + Z.of_nat (Z.to_nat (Z.of_nat (length (buf o)) - 1)))) as [Hin|Hout];
      [reflexivity|].
    cbn [andb]. unfold byteAt. rewrite lookup_ge_None_2 by lia. reflexivity. }
  pose proof (Draw_buf z) as Hbuf. pose proof (Draw_geometry z) as [Hw' Hh'].
  exists (Draw z).1, (Draw z).2. split.
  { unfold Clear. rewrite Hloop. cbn [mbind outcome_bind fst].
    destruct (Draw z); reflexivity. }
  unfold Width, Height. rewrite Hbuf, Hw', Hh'.
  do 3 (split; [assumption|]).
  split; [rewrite Hbytes; reflexivity|].
  split; [assumption|].
  split.
  { intros x y Hx Hy Hwo. unfold pixel, bit_at. rewrite Hbuf, Hzero.
    - apply Z.bits_0.
    - rewrite (byte_of_pixel_width z) by assumption.
      unfold byte_of_pixel. rewrite Hw.
      pose proof (Z.div_pos y 8 Hy ltac:(lia)). nia. }
  split.
  { intros [Hwo Hho Hp Hl Hm Hb]. apply Draw_wf.
    split; rewrite ?Hw, ?Hh, ?Hlen; try assumption.
    apply (zeroed_is_bytes (buf o)); [assumption|].
    intros k. rewrite Hbytes. destruct (_ && _); [left | right]; reflexivity. }
  pose proof (Draw_traffic z) as Ht. rewrite Hd in Ht. exact Ht.
Qed.

(** X6. [Clear] never panics.  It zeroes every byte of the buffer from
    index 1 on and keeps the byte at index 0, the length, the width and the
    height, so that every pixel then reads as off; it then flushes, and
    returns the flush's error.  The buffer is zeroed also when the flush
    fails.  A display with the page layout keeps it. *)
Theorem Clear_zeroes_pixels_then_flushes (o : OLED) :
  Z.of_nat (length (buf o)) <= max_int ->
  exists o' e,
    Clear o = Return (o', e) /\
    Width o' = Width o /\ Height o' = Height o /\
    length (buf o') = length (buf o) /\
    byteAt (buf o') 0 = byteAt (buf o) 0 /\
    (forall k : nat, (1 <= k)%nat -> byteAt (buf o') k = 0) /\
    (forall x y, 0 <= x -> 0 <= y -> 0 <= w o -> pixel o' x y = false) /\
    (wf o -> wf o') /\
    match fails (dev o) (length (written (dev o))) with
    | Some msg =>
        written (dev o') = written (dev o) ++ [drawCmd] /\
        e = Some (ErrTransport msg)
    | None =>
        written (dev o') = written (dev o) ++ [drawCmd; buf o'] /\
        e = ErrTransport <$> fails (dev o) (S (length (written (dev o))))
    end.
Proof. apply Clear_effect. Qed.

Lemma Clear_zeroes_pixels_then_flushes_witness :
  exists o' e,
    Clear (with_buf tiny [0x40; 3; 9]) = Return (o', e) /\
    Width o' = Width (with_buf tiny [0x40; 3; 9]) /\
    Height o' = Height (with_buf tiny [0x40; 3; 9]) /\
    length (buf o') = length (buf (with_buf tiny [0x40; 3; 9])) /\
    byteAt (buf o') 0 = byteAt (buf (with_buf tiny [0x40; 3; 9])) 0 /\
    (forall k : nat, (1 <= k)%nat -> byteAt (buf o') k = 0) /\
    (forall x y, 0 <= x -> 0 <= y -> 0 <= w (with_buf tiny [0x40; 3; 9]) ->
       pixel o' x y = false) /\
    (wf (with_buf tiny [0x40; 3; 9]) -> wf o') /\
    written (dev o') = written (dev (with_buf tiny [0x40; 3; 9])) ++ [drawCmd; buf o'] /\
    e = ErrTransport <$> fails (dev (with_buf tiny [0x40; 3; 9])) 1%nat.
Proof.
  apply (Clear_zeroes_pixels_then_flushes (with_buf tiny [0x40; 3; 9])).
  unfold max_int. cbn. lia.
Defined.

(** ** Every bit of the pixel area is one pixel *)

Section Decode.
Variables (o : OLED) (k n : Z).
Hypothesis Hwf : wf o.
Hypothesis Hw : 0 < w o.
Hypothesis Hk : 1 <= k < Z.of_nat (length (buf o)).
Hypothesis Hn : 0 <= n < 8.

Lemma decode_page : (8 * ((k - 1) / w o) + n) / 8 = (k - 1) / w o.
Proof.
  rewrite Z.mul_comm, Z.div_add_l by lia.
  rewrite (Z.div_small n 8) by lia. lia.
Qed.

Lemma decode_in_bounds :
  0 <= (k - 1) mod w o < w o /\ 0 <= 8 * ((k - 1) / w o) + n < h o.
Proof.
  destruct Hwf as [_ _ Hp Hlen _ _].
  split; [apply Z.mod_pos_bound; lia|].
  pose proof (Z.div_pos (k - 1) (w o) ltac:(lia) Hw) as Hq.
  assert ((k - 1) / w o < h o / 8) as Hlt
    by (apply Z.div_lt_upper_bound; lia).
  pose proof (Z_div_exact_full_2 (h o) 8 ltac:(lia) Hp). lia.
Qed.

Lemma decode_address :
  byte_of_pixel o ((k - 1) mod w o) (8 * ((k - 1) / w o) + n) = k /\
  bit_of_pixel (8 * ((k - 1) / w o) + n) = n.
Proof.
  unfold byte_of_pixel, bit_of_pixel. rewrite decode_page. split.
  - pose proof (Z.div_mod (k - 1) (w o) ltac:(lia)). lia.
  - rewrite Z.mul_comm, Z.add_comm, Z.mod_add by lia. apply Z.mod_small. lia.
Qed.
End Decode.

(** X7. The pixel area has no unused and no shared bits.  For every byte
    index [k >= 1] of the buffer and every bit [n] of a byte, the coordinate
    ((k - 1) mod width, 8 * ((k - 1) / width) + n) is in bounds, a
    [SetPixel] there with value 1 succeeds, turns on exactly bit [n] of byte
    [k] and changes no other bit; and no other in-bounds coordinate makes
    [SetPixel] touch that bit. *)
Theorem every_pixel_bit_has_one_coordinate (o : OLED) (k n : Z) :
  wf o -> 0 < w o -> 1 <= k < Z.of_nat (length (buf o)) -> 0 <= n < 8 ->
  let x := (pixel_of_bit o k n).1 in
  let y := (pixel_of_bit o k n).2 in
  0 <= x < w o /\ 0 <= y < h o /\
  (exists o',
     SetPixel o x y 1 = Return (o', None) /\
     bit_at (buf o') (Z.to_nat k) n = true /\
     forall (k' : nat) (n' : Z),
       k' <> Z.to_nat k \/ n' <> n ->
       bit_at (buf o') k' n' = bit_at (buf o) k' n') /\
  (forall x' y' o',
     0 <= x' < w o -> 0 <= y' < h o -> (x', y') <> (x, y) ->
     SetPixel o x' y' 1 = Return (o', None) ->
     bit_at (buf o') (Z.to_nat k) n = bit_at (buf o) (Z.to_nat k) n).
Proof.
  intros Hwf Hw Hk Hn. cbn [pixel_of_bit fst snd].
  destruct (decode_in_bounds o k n Hwf Hw Hk Hn) as [Hx Hy].
  destruct (decode_address o k n Hw Hn) as [Hbyte Hbit].
  set (x := (k - 1) mod w o) in *. set (y := 8 * ((k - 1) / w o) + n) in *.
  split; [assumption|]. split; [assumption|]. split.
  - destruct (SetPixel_bits o x y 1 Hwf Hx Hy ltac:(right; reflexivity))
      as (o' & Hsp & _ & _ & _ & _ & _ & Hbits).
    exists o'. split; [assumption|]. rewrite Hbyte, Hbit in Hbits. split.
    + rewrite Hbits, decide_True by (split; reflexivity). reflexivity.
    + intros k' n' Hne. rewrite Hbits, decide_False; [reflexivity|].
      intros [-> ->]. destruct Hne; congruence.
  - intros x' y' o' Hx' Hy' Hne Hsp'.
    destruct (SetPixel_bits o x' y' 1 Hwf Hx' Hy' ltac:(right; reflexivity))
      as (o'' & Hsp'' & _ & _ & _ & _ & _ & Hbits).
    rewrite Hsp' in Hsp''. injection Hsp'' as <-.
    rewrite Hbits, decide_False; [reflexivity|].
    intros [Hkk Hnn]. apply Hne.
    rewrite <- Hbyte in Hkk. rewrite <- Hbit in Hnn.
    destruct (address_injective o x y x' y') as [-> ->];
      try assumption; try lia; reflexivity.
Qed.

Lemma every_pixel_bit_has_one_coordinate_witness :
  let x := (pixel_of_bit tiny 2 3).1 in
  let y := (pixel_of_bit tiny 2 3).2 in
  0 <= x < w tiny /\ 0 <= y < h tiny /\
  (exists o',
     SetPixel tiny x y 1 = Return (o', None) /\
     bit_at (buf o') (Z.to_nat 2) 3 = true /\
     forall (k' : nat) (n' : Z),
       k' <> Z.to_nat 2 \/ n' <> 3 ->
       bit_at (buf o') k' n' = bit_at (buf tiny) k' n') /\
  (forall x' y' o',
     0 <= x' < w tiny -> 0 <= y' < h tiny -> (x', y') <> (x, y) ->
     SetPixel tiny x' y' 1 = Return (o', None) ->
     bit_at (buf o') (Z.to_nat 2) 3 = bit_at (buf tiny) (Z.to_nat 2) 3).
Proof.
  apply (every_pixel_bit_has_one_coordinate tiny 2 3).
  - exact wf_tiny.
  - cbn; lia.
  - cbn; lia.
  - lia.
Defined.

(** ** SetImage for every argument *)

Lemma SetPixel_no_error o x y v o' e :
  x < w o -> y < h o -> v <= 1 ->
  SetPixel o x y v = Return (o', e) -> e = None.
Proof.
  intros Hx Hy Hv. unfold SetPixel.
  replace (x >=? w o) with false by (symmetry; rewrite Z.geb_leb; lia).
  replace (y >=? h o) with false by (symmetry; rewrite Z.geb_leb; lia).
  replace (v >? 1) with false by (symmetry; rewrite Z.gtb_ltb; lia).
  cbn [orb].
  destruct (v =? 0); unfold index, assign;
    destruct (in_range (buf o) _); cbn [mbind outcome_bind]; try discriminate;
    intros [= _ <-]; reflexivity.
Qed.

Lemma threshold_le_1 c : threshold c <= 1.
Proof. destruct (threshold_cases c) as [-> | ->]; lia. Qed.

(** The inner loop stays below the height, so no [SetPixel] in it reports
    an error. *)
Lemma SetImage_rows_frame (img : Image) (i imgI : Z) :
  forall (n : nat) (o : OLED) (j iy : Z) st e,
    i < w o -> ((0 < n)%nat -> j + Z.of_nat n <= h o) ->
    min_int <= j -> h o <= max_int ->
    for_range n j (SetImage_row img i imgI) (o, iy) = Return (st, e) ->
    e = None /\ dev st.1 = dev o /\ w st.1 = w o /\ h st.1 = h o /\
    length (buf st.1) = length (buf o).
Proof.
  induction n as [|n IH]; intros o j iy st e Hi Hjn Hj Hh Hrun.
  - cbn [for_range] in Hrun. injection Hrun as <- <-. repeat split.
  - specialize (Hjn ltac:(lia)).
    rewrite for_range_S, SetImage_row_eq in Hrun.
    destruct (SetPixel o i j (threshold (At img imgI iy))) as [[o1 e1]|msg] eqn:Hsp;
      cbn [mbind outcome_bind fst snd] in Hrun; [|discriminate].
    assert (j < h o) as Hjh by lia.
    pose proof (SetPixel_no_error o i j _ o1 e1 Hi Hjh
                  (threshold_le_1 _) Hsp) as ->.
    destruct (SetPixel_frame _ _ _ _ _ _ Hsp) as (Hd1 & Hw1 & Hh1 & Hl1).
    cbn [mbind outcome_bind fst snd] in Hrun.
    rewrite (add_1_small j) in Hrun by int_range.
    apply IH in Hrun; [|lia|lia|lia|lia].
    destruct Hrun as (-> & Hd & Hw & Hh' & Hl).
    repeat split; congruence.
Qed.

Lemma SetImage_columns_frame (img : Image) (y : Z) (rows : nat) :
  forall (n : nat) (o : OLED) (i ix iy : Z) st e,
    ((0 < n)%nat -> i + Z.of_nat n <= w o) ->
    min_int <= i -> w o <= max_int ->
    ((0 < rows)%nat -> y + Z.of_nat rows <= h o) ->
    min_int <= y -> h o <= max_int ->
    for_range n i (SetImage_column img y rows) (o, ix, iy) = Return (st, e) ->
    e = None /\ dev st.1.1 = dev o /\ w st.1.1 = w o /\ h st.1.1 = h o /\
    length (buf st.1.1) = length (buf o).
Proof.
  induction n as [|n IH]; intros o i ix iy st e Hin Hi Hw Hrows Hy Hh Hrun.
  - cbn [for_range] in Hrun. injection Hrun as <- <-. repeat split.
  - specialize (Hin ltac:(lia)).
    rewrite for_range_S, SetImage_column_eq in Hrun.
    destruct (for_range rows y (SetImage_row img i ix) (o, 0)) as [[st1 e1]|msg] eqn:Hrow;
      cbn [mbind outcome_bind fst snd] in Hrun; [|discriminate].
    apply SetImage_rows_frame in Hrow; [|lia|assumption|assumption|assumption].
    destruct Hrow as (-> & Hd1 & Hw1 & Hh1 & Hl1).
    cbn [mbind outcome_bind fst snd] in Hrun.
    rewrite (add_1_small i) in Hrun by int_range.
    apply IH in Hrun; [|lia|lia|lia|lia|lia|lia].
    destruct Hrun as (-> & Hd & Hw' & Hh' & Hl).
    repeat split; congruence.
Qed.

(** X8. [SetImage] never returns an error.  For every display, position
    and picture, negative positions included, a call that returns reports
    nil, and has left the connection, the width, the height and the length
    of the buffer as they were; the only other way out is a panic. *)
Theorem SetImage_never_returns_an_error (o : OLED) (x y : Z) (img : Image)
    (o' : OLED) (e : option error) :
  is_int x -> is_int y -> is_int (w o) -> is_int (h o) ->
  SetImage o x y img = Return (o', e) ->
  e = None /\ dev o' = dev o /\ Width o' = Width o /\ Height o' = Height o /\
  length (buf o') = length (buf o).
Proof.
  intros Hx Hy Hw Hh Hrun. unfold SetImage in Hrun. rewrite !clip_cases in Hrun.
  destruct (for_range _ x _ (o, 0, 0)) as [[st e1]|msg] eqn:Hloop;
    cbn [mbind outcome_bind fst snd] in Hrun; [|discriminate].
  injection Hrun as <- <-.
  apply SetImage_columns_frame in Hloop; [exact Hloop| | | | | | ];
    unfold is_int in *; lia.
Qed.

Lemma SetImage_never_returns_an_error_witness :
  @None error = None /\
  dev (with_buf opened (0x41 :: replicate 1024 0)) = dev opened /\
  Width (with_buf opened (0x41 :: replicate 1024 0)) = Width opened /\
  Height (with_buf opened (0x41 :: replicate 1024 0)) = Height opened /\
  length (buf (with_buf opened (0x41 :: replicate 1024 0))) = length (buf opened).
Proof.
  apply (SetImage_never_returns_an_error opened (-1) 0 (white 1 1) _ None).
  - unfold is_int, min_int, max_int. lia.
  - unfold is_int, min_int, max_int. lia.
  - unfold is_int, min_int, max_int. cbn. lia.
  - unfold is_int, min_int, max_int. cbn. lia.
  - vm_compute. reflexivity.
Defined.

(** X9. A picture with no columns or no rows is a no-op at every position,
    negative ones included: the call returns nil and the very same
    display. *)
Theorem SetImage_of_empty_picture_is_noop (o : OLED) (x y : Z) (img : Image) :
  is_int x -> is_int y ->
  Dx (Bounds img) = 0 \/ Dy (Bounds img) = 0 ->
  SetImage o x y img = Return (o, None).
Proof.
  intros Hx Hy Hempty. unfold SetImage. rewrite !clip_cases.
  destruct Hempty as [-> | ->].
  - unfold add at 1. rewrite Z.add_0_r, wrap_small by assumption.
    replace (Z.to_nat (Z.min x (w o) - x)) with 0%nat by lia.
    reflexivity.
  - unfold add at 2. rewrite Z.add_0_r, (wrap_small y) by assumption.
    destruct (SetImage_columns_no_rows img y (Z.to_nat (Z.min y (h o) - y))
                ltac:(lia)
                (Z.to_nat (Z.min (add x (Dx (Bounds img))) (w o) - x)) o x 0 0)
      as (ix' & iy' & Heq).
    rewrite Heq. reflexivity.
Qed.

Lemma SetImage_of_empty_picture_is_noop_witness :
  SetImage opened (-3) 2 no_picture = Return (opened, None).
Proof.
  apply (SetImage_of_empty_picture_is_noop opened (-3) 2 no_picture).
  - unfold is_int, min_int, max_int. lia.
  - unfold is_int, min_int, max_int. lia.
  - left. reflexivity.
Defined.

(** ** SetImage inside the display *)

Lemma SetImage_unfold (o : OLED) (x y : Z) (img : Image) :
  0 <= x -> 0 <= y ->
  x + Dx (Bounds img) <= max_int -> y + Dy (Bounds img) <= max_int ->
  SetImage o x y img
  = (r ← for_range (Z.to_nat (Z.min (x + Dx (Bounds img)) (w o) - x)) x
           (SetImage_column img y
              (Z.to_nat (Z.min (y + Dy (Bounds img)) (h o) - y))) (o, 0, 0);
     Return (r.1.1.1, r.2)).
Proof.
  intros Hx Hy HX HY.
  pose proof (wrap_is_int (X (Max (Bounds img)) - X (Min (Bounds img)))) as HDx.
  pose proof (wrap_is_int (Y (Max (Bounds img)) - Y (Min (Bounds img)))) as HDy.
  fold (sub (X (Max (Bounds img))) (X (Min (Bounds img)))) in HDx.
  fold (sub (Y (Max (Bounds img))) (Y (Min (Bounds img)))) in HDy.
  fold (Dx (Bounds img)) in HDx. fold (Dy (Bounds img)) in HDy.
  unfold SetImage. rewrite !clip_cases.
  replace (add x (Dx (Bounds img))) with (x + Dx (Bounds img))
    by (symmetry; unfold add; apply wrap_small; int_range).
  replace (add y (Dy (Bounds img))) with (y + Dy (Bounds img))
    by (symmetry; unfold add; apply wrap_small; int_range).
  reflexivity.
Qed.

(** What a blit at a position inside the display leaves behind. *)
Lemma SetImage_inside (o : OLED) (x y : Z) (img : Image) :
  wf o -> 0 <= x < w o -> 0 <= y < h o ->
  x + Dx (Bounds img) <= max_int -> y + Dy (Bounds img) <= max_int ->
  (forall u v, valid_color (At img u v)) ->
  exists o',
    SetImage o x y img = Return (o', None) /\
    wf o' /\ dev o' = dev o /\ w o' = w o /\ h o' = h o /\
    (forall i j,
       x <= i < x + Z.of_nat (Z.to_nat (Z.min (x + Dx (Bounds img)) (w o) - x)) ->
       y <= j < y + Z.of_nat (Z.to_nat (Z.min (y + Dy (Bounds img)) (h o) - y)) ->
       pixel o' i j = lit (At img (i - x) (j - y))) /\
    (forall (k : nat) (m : Z),
       (forall i j,
          x <= i < x + Z.of_nat (Z.to_nat (Z.min (x + Dx (Bounds img)) (w o) - x)) ->
          y <= j < y + Z.of_nat (Z.to_nat (Z.min (y + Dy (Bounds img)) (h o) - y)) ->
          ~ (k = Z.to_nat (byte_of_pixel o i j) /\ m = bit_of_pixel j)) ->
       bit_at (buf o') k m = bit_at (buf o) k m).
Proof.
  intros Hwf Hx Hy HX HY Hcolors.
  pose proof Hwf as [Hw Hh _ _ _ _].
  destruct (SetImage_columns_spec img Hcolors y
              (Z.to_nat (Z.min (y + Dy (Bounds img)) (h o) - y))
              (Z.to_nat (Z.min (x + Dx (Bounds img)) (w o) - x)) o x 0 0)
    as (o' & iy' & Hloop & Hwf' & Hd' & Hw' & Hh' & Hpix' & Hfr');
    [assumption | lia | lia | lia | lia | lia | int_range |].
  exists o'. split.
  { rewrite SetImage_unfold by lia. rewrite Hloop. reflexivity. }
  do 4 (split; [assumption|]).
  split; [|exact Hfr'].
  intros i j Hi Hj. rewrite Hpix' by assumption. reflexivity.
Qed.

Section Repaint.
Variable img : Image.

(** Rows that already show the picture are left as they are. *)
Lemma SetImage_rows_fixed (i imgI : Z) :
  forall (n : nat) (o : OLED) (j iy : Z),
    wf o -> 0 <= i < w o -> 0 <= j -> j + Z.of_nat n <= h o ->
    0 <= iy -> iy + Z.of_nat n <= max_int ->
    (forall j', j <= j' < j + Z.of_nat n ->
       pixel o i j' = (threshold (At img imgI (iy + (j' - j))) =? 1)) ->
    for_range n j (SetImage_row img i imgI) (o, iy)
    = Return ((o, iy + Z.of_nat n), None).
Proof.
  induction n as [|n IH]; intros o j iy Hwf Hi Hj Hjn Hiy Hiyn Hpix.
  - cbn [for_range]. rewrite Z.add_0_r. reflexivity.
  - pose proof Hwf as [_ Hh _ _ _ _].
    rewrite for_range_S, SetImage_row_eq.
    rewrite SetPixel_same_value;
      [|assumption|assumption|lia|apply threshold_cases|].
    + cbn [mbind outcome_bind fst snd].
      rewrite !add_1_small by int_range.
      rewrite IH; [do 3 f_equal; lia|assumption|assumption|lia|lia|lia|lia|].
      intros j' Hj'. rewrite Hpix by lia. do 3 f_equal. lia.
    + rewrite Hpix by lia. do 3 f_equal. lia.
Qed.

Lemma SetImage_columns_fixed (y : Z) (rows : nat) :
  forall (n : nat) (o : OLED) (i ix iy : Z),
    wf o -> 0 <= i -> i + Z.of_nat n <= w o ->
    0 <= y -> y + Z.of_nat rows <= h o ->
    0 <= ix -> ix + Z.of_nat n <= max_int ->
    (forall i' j', i <= i' < i + Z.of_nat n -> y <= j' < y + Z.of_nat rows ->
       pixel o i' j' = (threshold (At img (ix + (i' - i)) (j' - y)) =? 1)) ->
    exists iy',
      for_range n i (SetImage_column img y rows) (o, ix, iy)
      = Return ((o, ix + Z.of_nat n, iy'), None).
Proof.
  induction n as [|n IH]; intros o i ix iy Hwf Hi Hin Hy Hrows Hix Hixn Hpix.
  - exists iy. cbn [for_range]. rewrite Z.add_0_r. reflexivity.
  - pose proof Hwf as [Hw Hh _ _ _ _].
    rewrite for_range_S, SetImage_column_eq.
    rewrite SetImage_rows_fixed;
      [|assumption|lia|assumption|assumption|lia|int_range|].
    + cbn [mbind outcome_bind fst snd].
      rewrite !add_1_small by int_range.
      destruct (IH o (i + 1) (ix + 1) (0 + Z.of_nat rows)) as (iy' & Hloop);
        [assumption|lia|lia|assumption|assumption|lia|lia| |].
      * intros i' j' Hi' Hj'. rewrite Hpix by lia. do 3 f_equal. lia.
      * exists iy'. rewrite Hloop. do 4 f_equal. lia.
    + intros j' Hj'. rewrite Hpix by lia. do 3 f_equal; lia.
Qed.
End Repaint.

(** X10. Blitting is idempotent: a picture blitted at a position with
    [x, y >= 0] succeeds, and blitting the same picture again at the same
    position returns the very same display. *)
Theorem SetImage_twice_is_SetImage_once (o : OLED) (x y : Z) (img : Image) :
  wf o -> 0 <= x -> 0 <= y ->
  x + Dx (Bounds img) <= max_int -> y + Dy (Bounds img) <= max_int ->
  (forall u v, valid_color (At img u v)) ->
  exists o',
    SetImage o x y img = Return (o', None) /\
    SetImage o' x y img = Return (o', None).
Proof.
  intros Hwf Hx Hy HX HY Hcolors.
  destruct (Z.le_gt_cases (w o) x) as [Hxw|Hxw];
    [|destruct (Z.le_gt_cases (h o) y) as [Hyh|Hyh]].
  1,2: exists o; split; apply SetImage_noop; lia.
  destruct (SetImage_inside o x y img Hwf ltac:(lia) ltac:(lia) HX HY Hcolors)
    as (o' & Hrun & Hwf' & Hd' & Hw' & Hh' & Hpix' & _).
  exists o'. split; [assumption|].
  rewrite SetImage_unfold by lia. rewrite Hw', Hh'.
  pose proof Hwf as [Hw Hh _ _ _ _].
  destruct (SetImage_columns_fixed img y
              (Z.to_nat (Z.min (y + Dy (Bounds img)) (h o) - y))
              (Z.to_nat (Z.min (x + Dx (Bounds img)) (w o) - x)) o' x 0 0)
    as (iy' & Hloop);
    [assumption | lia | lia | lia | lia | lia | int_range | |].
  - intros i j Hi Hj. rewrite Hpix' by assumption.
    rewrite threshold_lit by apply Hcolors. do 2 f_equal.
  - rewrite Hloop. reflexivity.
Qed.

Lemma SetImage_twice_is_SetImage_once_witness :
  exists o',
    SetImage opened 126 60 (white 10 10) = Return (o', None) /\
    SetImage o' 126 60 (white 10 10) = Return (o', None).
Proof.
  apply (SetImage_twice_is_SetImage_once opened 126 60 (white 10 10)).
  - exact wf_opened.
  - lia.
  - lia.
  - change (Dx (Bounds (white 10 10))) with 10. unfold max_int. lia.
  - change (Dy (Bounds (white 10 10))) with 10. unfold max_int. lia.
  - apply white_valid.
Defined.

(** ** What pixel operations keep *)

Lemma SetPixel_keeps_ready (o : OLED) (x y v : Z) :
  wf o -> 0 <= x -> 0 <= y -> is_byte v ->
  exists o' e,
    SetPixel o x y v = Return (o', e) /\ wf o' /\
    byteAt (buf o') 0 = byteAt (buf o) 0.
Proof.
  intros Hwf Hx Hy Hv.
  assert (exists o' e, SetPixel o x y v = Return (o', e) /\ wf o')
    as (o' & e & Hsp & Hwf').
  { destruct (Z.le_gt_cases (w o) x) as [Hxw|Hxw];
      [|destruct (Z.le_gt_cases (h o) y) as [Hyh|Hyh];
        [|destruct (Z.le_gt_cases v 1) as [Hv1|Hv1]]].
    - eexists _, _. split; [apply SetPixel_beyond; lia | assumption].
    - eexists _, _. split; [apply SetPixel_beyond; lia | assumption].
    - assert (v = 0 \/ v = 1) as Hv01 by (unfold is_byte in Hv; lia).
      eexists _, _. split; [apply SetPixel_in_bounds_eq; try assumption; lia|].
      apply SetPixel_wf; try assumption; lia.
    - eexists _, _. split; [apply SetPixel_bad_value; lia | assumption]. }
  exists o', e. split; [assumption|]. split; [assumption|].
  apply (SetPixel_keeps_marker o x y v o' e); assumption.
Qed.

Lemma SetImage_keeps_ready (o : OLED) (x y : Z) (img : Image) :
  wf o -> 0 <= x -> 0 <= y ->
  x + Dx (Bounds img) <= max_int -> y + Dy (Bounds img) <= max_int ->
  (forall u v, valid_color (At img u v)) ->
  exists o',
    SetImage o x y img = Return (o', None) /\ wf o' /\
    byteAt (buf o') 0 = byteAt (buf o) 0.
Proof.
  intros Hwf Hx Hy HX HY Hcolors.
  destruct (Z.le_gt_cases (w o) x) as [Hxw|Hxw];
    [|destruct (Z.le_gt_cases (h o) y) as [Hyh|Hyh]].
  1,2: exists o; split; [apply SetImage_noop; lia|];
       split; [assumption | reflexivity].
  destruct (SetImage_inside o x y img Hwf ltac:(lia) ltac:(lia) HX HY Hcolors)
    as (o' & Hrun & Hwf' & _ & _ & _ & _ & Hfr).
  exists o'. split; [assumption|]. split; [assumption|].
  apply Z.bits_inj'. intros n _. apply (Hfr 0%nat n).
  intros i j Hi Hj [Hk _].
  pose proof (byte_of_pixel_pos o i j ltac:(lia) ltac:(lia)). lia.
Qed.

(** X11. With coordinates that are not negative, [SetPixel] (for any byte
    value, accepted or rejected) and [SetImage] return, keep the page layout
    of the buffer and leave the byte at index 0 as it was. *)
Theorem nonnegative_writes_keep_layout_and_marker (o : OLED) (x y : Z) :
  wf o -> 0 <= x -> 0 <= y ->
  (forall v, is_byte v ->
     exists o' e,
       SetPixel o x y v = Return (o', e) /\ wf o' /\
       byteAt (buf o') 0 = byteAt (buf o) 0) /\
  (forall img,
     x + Dx (Bounds img) <= max_int -> y + Dy (Bounds img) <= max_int ->
     (forall u v, valid_color (At img u v)) ->
     exists o',
       SetImage o x y img = Return (o', None) /\ wf o' /\
       byteAt (buf o') 0 = byteAt (buf o) 0).
Proof.
  intros Hwf Hx Hy. split.
  - intros v Hv. apply SetPixel_keeps_ready; assumption.
  - intros img HX HY Hcolors. apply SetImage_keeps_ready; assumption.
Qed.

Lemma nonnegative_writes_keep_layout_and_marker_witness :
  (exists o' e,
     SetPixel opened 127 63 1 = Return (o', e) /\ wf o' /\
     byteAt (buf o') 0 = byteAt (buf opened) 0) /\
  (exists o',
     SetImage opened 126 60 (white 10 10) = Return (o', None) /\ wf o' /\
     byteAt (buf o') 0 = byteAt (buf opened) 0).
Proof.
  destruct (nonnegative_writes_keep_layout_and_marker opened 127 63
              wf_opened ltac:(lia) ltac:(lia)) as [Hpix _].
  destruct (nonnegative_writes_keep_layout_and_marker opened 126 60
              wf_opened ltac:(lia) ltac:(lia)) as [_ Himg].
  split.
  - apply Hpix. unfold is_byte. lia.
  - apply Himg.
    + change (Dx (Bounds (white 10 10))) with 10. unfold max_int. lia.
    + change (Dy (Bounds (white 10 10))) with 10. unfold max_int. lia.
    + apply white_valid.
Defined.

(** ** The two ways to open *)

(** X12. [Open] and [OpenWithI2c] build the same display: when the bus
    cooperates, what [Open] returns is what [OpenWithI2c] returns for the
    connection as the init write left it and the default height 64; that
    display is 128 wide, 64 high, has the page layout and 0x40 at index 0.
    [OpenWithI2c] itself writes nothing. *)
Theorem Open_is_init_then_OpenWithI2c (op : Opener) (d : Device) :
  op addr = inl d -> fails d (length (written d)) = None ->
  exists d' o,
    Open op = Return (Some d', (Some o, None)) /\
    written d' = written d ++ [initSeq] /\
    OpenWithI2c d' ssd1306_LCDHEIGHT = Return (Some o, None) /\
    dev o = d' /\ Width o = 128 /\ Height o = 64 /\
    wf o /\ byteAt (buf o) 0 = 0x40.
Proof.
  intros Hop Hf. eexists _, _.
  split; [apply (Open_eq op d Hop Hf)|].
  split; [reflexivity|].
  split; [reflexivity|].
  do 3 (split; [reflexivity|]).
  split; [|reflexivity].
  split; cbn [w h buf].
  - unfold is_int, min_int, max_int. lia.
  - unfold is_int, min_int, max_int. lia.
  - reflexivity.
  - reflexivity.
  - unfold max_int. cbn [length]. rewrite length_replicate. lia.
  - apply Forall_cons. split; [unfold is_byte; lia|].
    apply Forall_replicate. unfold is_byte. lia.
Qed.

Lemma Open_is_init_then_OpenWithI2c_witness :
  exists d' o,
    Open (fun _ => inl quiet) = Return (Some d', (Some o, None)) /\
    written d' = written quiet ++ [initSeq] /\
    OpenWithI2c d' ssd1306_LCDHEIGHT = Return (Some o, None) /\
    dev o = d' /\ Width o = 128 /\ Height o = 64 /\
    wf o /\ byteAt (buf o) 0 = 0x40.
Proof.
  apply (Open_is_init_then_OpenWithI2c (fun _ => inl quiet) quiet); reflexivity.
Defined.

(** ** Switching the display on and off *)

Lemma SetPixel_with_dev (o : OLED) (d : Device) (x y v : Z) (o' : OLED)
    (e : option error) :
  SetPixel o x y v = Return (o', e) ->
  SetPixel (with_dev o d) x y v = Return (with_dev o' d, e).
Proof.
  unfold SetPixel. cbn [w h buf with_dev].
  destruct ((x >=? w o) || (y >=? h o)); [intros [= <- <-]; reflexivity|].
  destruct (v >? 1); [intros [= <- <-]; reflexivity|].
  destruct (v =? 0); unfold index, assign;
    destruct (in_range (buf o) _); cbn [mbind outcome_bind]; try discriminate;
    intros [= <- <-]; reflexivity.
Qed.

(** X13. [On] and [Off] each hand the bus one single-byte write, 0xAF and
    0xAE, return what that write returns and leave buffer and geometry
    alone; and they commute with pixel writes: a [SetPixel] gives the same
    result and the same display whether it comes before or after the
    switch. *)
Theorem On_Off_commute_with_SetPixel (o : OLED) (x y v : Z) (o' : OLED)
    (e : option error) :
  SetPixel o x y v = Return (o', e) ->
  (written (dev (On o).1) = written (dev o) ++ [[0xAF]] /\
   (On o).2 = ErrTransport <$> fails (dev o) (length (written (dev o))) /\
   buf (On o).1 = buf o /\
   SetPixel (On o).1 x y v = Return ((On o').1, e) /\ (On o').2 = (On o).2) /\
  (written (dev (Off o).1) = written (dev o) ++ [[0xAE]] /\
   (Off o).2 = ErrTransport <$> fails (dev o) (length (written (dev o))) /\
   buf (Off o).1 = buf o /\
   SetPixel (Off o).1 x y v = Return ((Off o').1, e) /\ (Off o').2 = (Off o).2).
Proof.
  intros Hsp. destruct (SetPixel_frame _ _ _ _ _ _ Hsp) as (Hd & _ & _ & _).
  split.
  - unfold On, Write. cbn [fst snd dev buf with_dev]. rewrite Hd.
    do 3 (split; [reflexivity|]).
    split; [|reflexivity]. apply SetPixel_with_dev. assumption.
  - unfold Off, Write. cbn [fst snd dev buf with_dev]. rewrite Hd.
    do 3 (split; [reflexivity|]).
    split; [|reflexivity]. apply SetPixel_with_dev. assumption.
Qed.

Lemma On_Off_commute_with_SetPixel_witness :
  (written (dev (On tiny).1) = written (dev tiny) ++ [[0xAF]] /\
   (On tiny).2 = ErrTransport <$> fails (dev tiny) (length (written (dev tiny))) /\
   buf (On tiny).1 = buf tiny /\
   SetPixel (On tiny).1 1 3 1 = Return ((On (with_buf tiny [0x40; 0; 8])).1, None) /\
   (On (with_buf tiny [0x40; 0; 8])).2 = (On tiny).2) /\
  (written (dev (Off tiny).1) = written (dev tiny) ++ [[0xAE]] /\
   (Off tiny).2 = ErrTransport <$> fails (dev tiny) (length (written (dev tiny))) /\
   buf (Off tiny).1 = buf tiny /\
   SetPixel (Off tiny).1 1 3 1 = Return ((Off (with_buf tiny [0x40; 0; 8])).1, None) /\
   (Off (with_buf tiny [0x40; 0; 8])).2 = (Off tiny).2).
Proof.
  apply (On_Off_commute_with_SetPixel tiny 1 3 1 (with_buf tiny [0x40; 0; 8]) None).
  vm_compute. reflexivity.
Defined.

(** ** Writes reach the bus with the next flush *)

(** X14. Pixel writes are deferred: an in-bounds [SetPixel] sends nothing,
    and the next flush, on a bus that accepts the framing, transmits the
    framing followed by a payload of the buffer's length in which the
    written pixel reads as [v] and every other bit is as it was before the
    write. *)
Theorem Draw_transmits_pixel_writes (o : OLED) (x y v : Z) :
  wf o -> 0 <= x < w o -> 0 <= y < h o -> v = 0 \/ v = 1 ->
  fails (dev o) (length (written (dev o))) = None ->
  exists o' payload,
    SetPixel o x y v = Return (o', None) /\
    written (dev o') = written (dev o) /\
    written (dev (Draw o').1) = written (dev o) ++ [drawCmd; payload] /\
    length payload = length (buf o) /\
    bit_at payload (Z.to_nat (byte_of_pixel o x y)) (bit_of_pixel y) = (v =? 1) /\
    forall (k : nat) (n : Z),
      ~ (k = Z.to_nat (byte_of_pixel o x y) /\ n = bit_of_pixel y) ->
      bit_at payload k n = bit_at (buf o) k n.
Proof.
  intros Hwf Hx Hy Hv Hbus.
  destruct (SetPixel_bits o x y v Hwf Hx Hy Hv)
    as (o' & Hsp & _ & Hd & _ & _ & Hlen & Hbits).
  exists o', (buf o'). split; [assumption|].
  split; [rewrite Hd; reflexivity|].
  split.
  { pose proof (Draw_traffic o') as Ht. rewrite Hd, Hbus in Ht. apply Ht. }
  split; [assumption|]. split.
  - rewrite Hbits, decide_True by (split; reflexivity). reflexivity.
  - intros k n Hkn. rewrite Hbits, decide_False by assumption. reflexivity.
Qed.

Lemma Draw_transmits_pixel_writes_witness :
  exists o' payload,
    SetPixel tiny 1 3 1 = Return (o', None) /\
    written (dev o') = written (dev tiny) /\
    written (dev (Draw o').1) = written (dev tiny) ++ [drawCmd; payload] /\
    length payload = length (buf tiny) /\
    bit_at payload (Z.to_nat (byte_of_pixel tiny 1 3)) (bit_of_pixel 3) = (1 =? 1) /\
    forall (k : nat) (n : Z),
      ~ (k = Z.to_nat (byte_of_pixel tiny 1 3) /\ n = bit_of_pixel 3) ->
      bit_at payload k n = bit_at (buf tiny) k n.
Proof.
  apply (Draw_transmits_pixel_writes tiny 1 3 1).
  - exact wf_tiny.
  - cbn; lia.
  - cbn; lia.
  - right; reflexivity.
  - reflexivity.
Defined.

(** ** Whole runs of client code *)

Lemma with_dev_wf (o : OLED) (d : Device) : wf o -> wf (with_dev o d).
Proof. intros [Hw Hh Hp Hlen Hmax Hb]. split; assumption. Qed.

Lemma SetImage_keeps_geometry (o : OLED) (x y : Z) (img : Image) :
  wf o -> 0 <= x -> 0 <= y ->
  x + Dx (Bounds img) <= max_int -> y + Dy (Bounds img) <= max_int ->
  (forall u v, valid_color (At img u v)) ->
  exists o',
    SetImage o x y img = Return (o', None) /\ w o' = w o /\ h o' = h o.
Proof.
  intros Hwf Hx Hy HX HY Hcolors.
  destruct (Z.le_gt_cases (w o) x) as [Hxw|Hxw];
    [|destruct (Z.le_gt_cases (h o) y) as [Hyh|Hyh]].
  1,2: exists o; split; [apply SetImage_noop; lia|]; split; reflexivity.
  destruct (SetImage_inside o x y img Hwf ltac:(lia) ltac:(lia) HX HY Hcolors)
    as (o' & Hrun & _ & _ & Hw & Hh & _).
  exists o'. repeat split; assumption.
Qed.

(** One call with coordinates that are not negative. *)
Lemma perform_keeps_ready (o : OLED) (c : call) :
  wf o -> nonnegative c ->
  exists o' e,
    perform o c = Return (o', e) /\ wf o' /\
    byteAt (buf o') 0 = byteAt (buf o) 0 /\ w o' = w o /\ h o' = h o.
Proof.
  intros Hwf Hc. destruct c as [x y v|x y img| | | |]; cbn [perform nonnegative] in *.
  - destruct Hc as (Hx & Hy & Hv).
    destruct (SetPixel_keeps_ready o x y v Hwf Hx Hy Hv) as (o' & e & Hsp & Hwf' & Hm).
    destruct (SetPixel_frame _ _ _ _ _ _ Hsp) as (_ & Hw & Hh & _).
    exists o', e. do 3 (split; [assumption|]). split; assumption.
  - destruct Hc as (Hx & Hy & HX & HY & Hcolors).
    destruct (SetImage_keeps_ready o x y img Hwf Hx Hy HX HY Hcolors)
      as (o' & Hrun & Hwf' & Hm).
    destruct (SetImage_keeps_geometry o x y img Hwf Hx Hy HX HY Hcolors)
      as (o'' & Hrun' & Hw & Hh).
    rewrite Hrun in Hrun'. injection Hrun' as <-.
    exists o', None. do 3 (split; [assumption|]). split; assumption.
  - pose proof Hwf as [_ _ _ _ Hmax _].
    destruct (Clear_effect o Hmax) as (o' & e & Hrun & Hw & Hh & _ & Hm & _ & _ & Hwf' & _).
    exists o', e. split; [assumption|]. split; [apply Hwf', Hwf|].
    split; [assumption|]. split; assumption.
  - exists (Draw o).1, (Draw o).2.
    pose proof (Draw_geometry o) as [Hw Hh].
    split; [destruct (Draw o); reflexivity|].
    split; [apply Draw_wf, Hwf|].
    split; [rewrite Draw_buf; reflexivity|]. split; assumption.
  - exists (On o).1, (On o).2.
    split; [destruct (On o); reflexivity|].
    split; [apply with_dev_wf, Hwf|]. split; [reflexivity|]. split; reflexivity.
  - exists (Off o).1, (Off o).2.
    split; [destruct (Off o); reflexivity|].
    split; [apply with_dev_wf, Hwf|]. split; [reflexivity|]. split; reflexivity.
Qed.

(** X15. Client code that never passes a negative coordinate cannot break
    the display: from a display with the page layout, any sequence of
    [SetPixel], [SetImage], [Clear], [Draw], [On] and [Off] calls, whatever
    errors the calls and the bus report on the way, runs to the end without
    a panic and leaves a display with the page layout, the same width,
    height and buffer length, and the same byte at index 0. *)
Theorem nonnegative_clients_keep_the_display_sound (o : OLED) (cs : list call) :
  wf o -> Forall nonnegative cs ->
  exists o',
    perform_all o cs = Return o' /\ wf o' /\
    byteAt (buf o') 0 = byteAt (buf o) 0 /\
    Width o' = Width o /\ Height o' = Height o /\
    length (buf o') = length (buf o).
Proof.
  intros Hwf Hcs. revert o Hwf.
  induction Hcs as [|c cs Hc Hcs IH]; intros o Hwf.
  - exists o. split; [reflexivity|]. split; [assumption|].
    do 3 (split; [reflexivity|]). reflexivity.
  - destruct (perform_keeps_ready o c Hwf Hc) as (o1 & e & Hrun & Hwf1 & Hm1 & Hw1 & Hh1).
    destruct (IH o1 Hwf1) as (o' & Hall & Hwf' & Hm' & Hw' & Hh' & Hl').
    exists o'. cbn [perform_all]. rewrite Hrun. cbn [mbind outcome_bind fst].
    split; [assumption|]. split; [assumption|].
    unfold Width, Height in *.
    split; [congruence|]. split; [congruence|]. split; [congruence|].
    rewrite Hl'.
    destruct Hwf as [_ _ _ Hlen _ _], Hwf1 as [_ _ _ Hlen1 _ _].
    rewrite Hw1, Hh1 in Hlen1. lia.
Qed.

Lemma nonnegative_clients_keep_the_display_sound_witness :
  exists o',
    perform_all opened
      [CallSetPixel 0 0 1; CallSetPixel 500 2 1; CallSetPixel 3 3 9;
       CallSetImage 126 60 (white 10 10); CallDraw; CallOff; CallClear; CallOn]
    = Return o' /\ wf o' /\
    byteAt (buf o') 0 = byteAt (buf opened) 0 /\
    Width o' = Width opened /\ Height o' = Height opened /\
    length (buf o') = length (buf opened).
Proof.
  apply (nonnegative_clients_keep_the_display_sound opened).
  - exact wf_opened.
  - repeat (apply Forall_cons; split); try apply Forall_nil; cbn [nonnegative];
      unfold is_byte;
      try change (Dx (Bounds (white 10 10))) with 10;
      try change (Dy (Bounds (white 10 10))) with 10;
      unfold max_int; repeat split; try lia; try exact I;
      try (intros u v; apply white_valid).
Defined.

(** ** Outside the intended domain *)

Lemma quot_8_small y : -8 < y < 8 -> quot y 8 = 0.
Proof.
  intros Hy. unfold quot.
  destruct (Z.le_gt_cases 0 y) as [Hnn|Hneg].
  - rewrite Z.quot_small by lia. reflexivity.
  - rewrite <- (Z.opp_involutive y), Z.quot_opp_l by lia.
    rewrite Z.quot_small by lia. reflexivity.
Qed.

(** X16. A display built by [OpenWithI2c] with a positive height that is not
    a multiple of 8 (and a buffer of at most 2^20 bytes) has no bytes for its last, partial page: every
    [SetPixel] with an in-bounds column and a row on that page passes the
    bounds check and then panics on the buffer index. *)
Theorem SetPixel_panics_on_the_partial_page (d : Device) (height x y v : Z) :
  0 < height -> height mod 8 <> 0 -> 128 * (height / 8) + 1 <= 2 ^ 20 ->
  0 <= x < 128 -> 8 * (height / 8) <= y < height -> v = 0 \/ v = 1 ->
  exists o,
    OpenWithI2c d height = Return (Some o, None) /\
    Width o = 128 /\ Height o = height /\
    SetPixel o x y v = Panic "index out of range".
Proof.
  intros Hpos Hm Hmax Hx Hy Hv.
  pose proof (Z.quot_div_nonneg height 8 ltac:(lia) ltac:(lia)) as Hqd.
  pose proof (Z.div_pos height 8 ltac:(lia) ltac:(lia)) as Hq.
  pose proof (Z.div_mod height 8 ltac:(lia)) as Hdm.
  pose proof (Z.mod_pos_bound height 8 ltac:(lia)) as Hmb.
  assert (y / 8 = height / 8) as Hpage
    by (symmetry; apply (Z.div_unique y 8 (height / 8) (y - 8 * (height / 8))); lia).
  eexists. split; [apply OpenWithI2c_eq; unfold max_alloc; lia|].
  split; [reflexivity|]. split; [reflexivity|].
  unfold SetPixel. cbn [w h buf].
  replace (x >=? 128) with false by (symmetry; rewrite Z.geb_leb; lia).
  replace (y >=? height) with false by (symmetry; rewrite Z.geb_leb; lia).
  replace (v >? 1) with false by (symmetry; rewrite Z.gtb_ltb; lia).
  cbn [orb].
  rewrite quot_8_nonneg by int_range. rewrite Hpage.
  unfold add, mul.
  rewrite (wrap_small (1 + x)) by int_range.
  rewrite (wrap_small (height / 8 * 128)) by int_range.
  rewrite wrap_small by int_range.
  unfold index, in_range. cbn [length]. rewrite length_replicate, Hqd.
  replace (1 + x + height / 8 * 128
           <? Z.of_nat (S (Z.to_nat (128 * (height / 8))))) with false
    by (symmetry; apply Z.ltb_ge; lia).
  rewrite andb_false_r. destruct (v =? 0); reflexivity.
Qed.

Lemma SetPixel_panics_on_the_partial_page_witness :
  exists o,
    OpenWithI2c quiet 12 = Return (Some o, None) /\
    Width o = 128 /\ Height o = 12 /\
    SetPixel o 0 8 1 = Panic "index out of range".
Proof.
  apply (SetPixel_panics_on_the_partial_page quiet 12 0 8 1).
  - lia.
  - discriminate.
  - change (12 / 8) with 1. lia.
  - lia.
  - change (12 / 8) with 1. lia.
  - right; reflexivity.
Defined.

(** X17. Negative columns on the first page.  On a display with the page
    layout, a width that is not negative and at least one page, a call with
    [0 <= y < 8] and [x = -1] is accepted and writes bit [y] of the byte at
    index 0, nothing else; with [x < -1] it panics on a negative index.  In
    neither case is an error returned. *)
Theorem SetPixel_left_of_the_first_page (o : OLED) (x y v : Z) :
  wf o -> 0 <= w o -> 8 <= h o -> 0 <= y < 8 -> v = 0 \/ v = 1 ->
  min_int <= x < 0 ->
  (x = -1 ->
   exists o',
     SetPixel o x y v = Return (o', None) /\
     bit_at (buf o') 0 y = (v =? 1) /\
     forall (k : nat) (n : Z),
       ~ (k = 0%nat /\ n = y) -> bit_at (buf o') k n = bit_at (buf o) k n) /\
  (x < -1 -> SetPixel o x y v = Panic "index out of range").
Proof.
  intros Hwf Hw Hh Hy Hv Hx.
  pose proof Hwf as [_ _ _ Hlen _ Hbytes].
  assert (1 <= h o / 8) as Hpages
    by (apply Z.div_le_lower_bound; lia).
  assert (forall x', min_int <= x' < 0 ->
            add (add 1 x') (mul (quot y 8) (w o)) = 1 + x') as Hidx.
  { intros x' Hx'. rewrite quot_8_small by lia.
    unfold mul. rewrite Z.mul_0_l. unfold add.
    rewrite (wrap_small 0) by int_range.
    rewrite (wrap_small (1 + x')) by int_range.
    rewrite Z.add_0_r. apply wrap_small. int_range. }
  assert (SetPixel o x y v =
          (let i := 1 + x in
           if v =? 0 then
             b ← index (buf o) i;
             s ← assign (buf o) i (Z.land b (u8 (Z.lnot (u8 (Z.shiftl 1 y)))));
             Return (with_buf o s, None)
           else
             b ← index (buf o) i;
             s ← assign (buf o) i (Z.lor b (u8 (Z.shiftl 1 y)));
             Return (with_buf o s, None))) as Hcode.
  { unfold SetPixel.
    replace (x >=? w o) with false by (symmetry; rewrite Z.geb_leb; lia).
    replace (y >=? h o) with false by (symmetry; rewrite Z.geb_leb; lia).
    replace (v >? 1) with false by (symmetry; rewrite Z.gtb_ltb; lia).
    cbn [orb]. rewrite Hidx by assumption. rewrite land_7.
    rewrite (Z.mod_small y 8) by lia. reflexivity. }
  rewrite Hcode. cbv zeta. split.
  - intros ->. change (1 + -1) with 0.
    unfold index, assign. rewrite in_range_true by nia.
    cbn [mbind outcome_bind]. change (Z.to_nat 0) with 0%nat.
    assert (0 < length (buf o))%nat as Hnonempty by nia.
    pose proof (byteAt_is_byte (buf o) 0 Hbytes) as Hb0.
    destruct Hv as [-> | ->]; cbn [Z.eqb]; eexists; (split; [reflexivity|]);
      cbn [buf with_buf]; unfold bit_at; split.
    + rewrite byteAt_insert, decide_True by (try reflexivity; assumption).
      rewrite bit_clear by (try assumption; lia).
      rewrite Z.eqb_refl. apply andb_false_r.
    + intros k n Hkn. rewrite byteAt_insert by assumption.
      destruct (decide (0%nat = k)) as [<-|Hne]; [|reflexivity].
      rewrite bit_clear by (try assumption; lia).
      destruct (Z.eqb_spec n y) as [->|Hn]; [exfalso; apply Hkn; split; reflexivity|].
      apply andb_true_r.
    + rewrite byteAt_insert, decide_True by (try reflexivity; assumption).
      rewrite bit_set by lia. rewrite Z.eqb_refl. apply orb_true_r.
    + intros k n Hkn. rewrite byteAt_insert by assumption.
      destruct (decide (0%nat = k)) as [<-|Hne]; [|reflexivity].
      rewrite bit_set by lia.
      destruct (Z.eqb_spec n y) as [->|Hn]; [exfalso; apply Hkn; split; reflexivity|].
      apply orb_false_r.
  - intros Hlt. unfold index, in_range.
    replace (0 <=? 1 + x) with false by (symmetry; apply Z.leb_gt; lia).
    cbn [andb]. destruct (v =? 0); reflexivity.
Qed.

Lemma SetPixel_left_of_the_first_page_witness :
  (exists o',
     SetPixel opened (-1) 0 1 = Return (o', None) /\
     bit_at (buf o') 0 0 = (1 =? 1) /\
     forall (k : nat) (n : Z),
       ~ (k = 0%nat /\ n = 0) -> bit_at (buf o') k n = bit_at (buf opened) k n) /\
  SetPixel opened (-2) 0 1 = Panic "index out of range".
Proof.
  split.
  - apply (proj1 (SetPixel_left_of_the_first_page opened (-1) 0 1 wf_opened
                    ltac:(cbn; lia) ltac:(cbn; lia) ltac:(lia)
                    ltac:(right; reflexivity) ltac:(unfold min_int; lia))).
    reflexivity.
  - apply (proj2 (SetPixel_left_of_the_first_page opened (-2) 0 1 wf_opened
                    ltac:(cbn; lia) ltac:(cbn; lia) ltac:(lia)
                    ltac:(right; reflexivity) ltac:(unfold min_int; lia))).
    lia.
Defined.

(** X18. Rows just above the display alias rows of the first page: for
    [-8 < y < 0] and a column below the width (negative ones included), on a
    display at least 8 high, [SetPixel(x, y, v)] does exactly what
    [SetPixel(x, y + 8, v)] does, for every display and value; the negative
    row is not reported. *)
Theorem SetPixel_negative_row_aliases_first_page (o : OLED) (x y v : Z) :
  -8 < y < 0 -> 8 <= h o -> x < w o ->
  SetPixel o x y v = SetPixel o x (y + 8) v.
Proof.
  intros Hy Hh Hx. unfold SetPixel.
  replace (x >=? w o) with false by (symmetry; rewrite Z.geb_leb; lia).
  replace (y >=? h o) with false by (symmetry; rewrite Z.geb_leb; lia).
  replace (y + 8 >=? h o) with false by (symmetry; rewrite Z.geb_leb; lia).
  rewrite !quot_8_small by lia. rewrite !land_7.
  replace ((y + 8) mod 8) with (y mod 8); [reflexivity|].
  rewrite <- (Z.mod_add y 1 8) by lia. reflexivity.
Qed.

Lemma SetPixel_negative_row_aliases_first_page_witness :
  SetPixel opened 0 (-1) 1 = SetPixel opened 0 (-1 + 8) 1.
Proof.
  apply (SetPixel_negative_row_aliases_first_page opened 0 (-1) 1).
  - lia.
  - cbn; lia.
  - cbn; lia.
Defined.
